(** * IBM Watsonx.ai provider: a shallow embedding of
      [src/providers/watsonx-provider.ts] and its properties.

    The functions of the provider are embedded as they are written:
    [getIamToken] (IAM token exchange with a process-wide cache),
    [buildWatsonxPrompt] (rendering of a conversation), [streamWatsonx]
    (the streaming state machine) and [streamSimpleWatsonx] (which hands
    its arguments on to [streamWatsonx]).

    Conventions of the embedding.
    - A JavaScript string is a [string]; every character stands for one
      code unit, so [String.length] is [.length] and slicing is by position.
    - A JavaScript [number] is a binary64 [float] (the kernel's primitive
      floats), so usage counters, prices and timestamps compute as in the
      source.
    - [Map<string, TokenCache>] is a [gmap string TokenCache]; an object
      of headers (a [Record<string, string>]) is a [gmap string string],
      and an object spread is a union in which the later object wins.
    - The effects of the source (the module-level cache, the events pushed
      on the stream, the calls to [fetch], the mutation of the one [output]
      object, thrown errors) are threaded by a small state-and-exception
      monad [M] over a [Heap].
    - What the outside world answers (environment variables, [Date.now()],
      the replies of the two HTTP endpoints and the chunks of the response
      body) is given by a [World] record; [JSON.parse] is a parameter. *)

From Stdlib Require Import String Ascii List Bool Arith Lia.
From Stdlib Require Import Floats.PrimFloat.
From stdpp Require Import base option list gmap strings pretty.

Set Warnings "-inexact-float".
Local Open Scope string_scope.

(* ===================================================================== *)
(** ** JavaScript strings and numbers *)
(* ===================================================================== *)

Module Js.

(** ["\n"] *)
Definition nl : string := String "010"%char EmptyString.

(** [s.slice(start)] for a non-negative [start]: the code units from
    position [min(start, s.length)] on. *)
Fixpoint slice_from (s : string) (start : nat) : string :=
  match start, s with
  | O, _ => s
  | S _, EmptyString => EmptyString
  | S n, String _ s' => slice_from s' n
  end.

(** the first [n] code units of [s] (all of [s] when it is shorter). *)
Fixpoint take (n : nat) (s : string) : string :=
  match n, s with
  | O, _ => EmptyString
  | S _, EmptyString => EmptyString
  | S n', String c s' => String c (take n' s')
  end.

(** [s.slice(start, end)] for non-negative [start] and [end]. *)
Definition slice (s : string) (start end_ : nat) : string :=
  take (end_ - start) (slice_from s start).

(** [s.startsWith(p)] *)
Definition startsWith (s p : string) : bool := String.prefix p s.

(** A string is truthy when it is not empty. *)
Definition truthy (s : string) : bool :=
  match s with
  | EmptyString => false
  | String _ _ => true
  end.

(** White space and line terminators of ECMAScript among the code units
    below 256: TAB, LF, VT, FF, CR, SP and NBSP. *)
Definition is_white_space (c : ascii) : bool :=
  let n := nat_of_ascii c in
  (Nat.eqb n 9 || Nat.eqb n 10 || Nat.eqb n 11 || Nat.eqb n 12
   || Nat.eqb n 13 || Nat.eqb n 32 || Nat.eqb n 160)%bool.

Fixpoint trimStart (s : string) : string :=
  match s with
  | EmptyString => EmptyString
  | String c s' => if is_white_space c then trimStart s' else s
  end.

Fixpoint trimEnd (s : string) : string :=
  match s with
  | EmptyString => EmptyString
  | String c s' =>
      match trimEnd s' with
      | EmptyString => if is_white_space c then EmptyString else String c EmptyString
      | t => String c t
      end
  end.

(** [s.trim()] *)
Definition trim (s : string) : string := trimEnd (trimStart s).

(** [s.split("\n")]: never empty; [""] splits into [[""]]. *)
Fixpoint split_nl (s : string) : list string :=
  match s with
  | EmptyString => [EmptyString]
  | String c s' =>
      if Ascii.eqb c "010"%char then EmptyString :: split_nl s'
      else match split_nl s' with
           | [] => [String c EmptyString]
           | l :: ls => String c l :: ls
           end
  end.

(** [parts.join(sep)] *)
Definition join (sep : string) (parts : list string) : string :=
  String.concat sep parts.

(** [lines.pop()]: the array without its last element, and that element
    ([undefined], here [None], when the array is empty). *)
Definition pop {A : Type} (l : list A) : list A * option A :=
  (removelast l, last l).

(** A JavaScript number. *)
Definition number : Type := float.

(** A number is falsy when it is [+0], [-0] or [NaN]. *)
Definition truthy_number (x : number) : bool :=
  negb (PrimFloat.eqb x 0%float || PrimFloat.is_nan x).

(** A value that was thrown: an [Error] with its message, or any other
    value, kept as [String(value)]. *)
Inductive thrown : Type :=
| Error (message : string)
| NotAnError (stringified : string).

(** [{...o, ...extra}] for two objects: the properties of both, those
    of [extra] replacing those of [o] with the same name. *)
Definition spread {V : Type} (o extra : gmap string V) : gmap string V :=
  extra ∪ o.

End Js.

Import Js.

(* ===================================================================== *)
(** ** Data model *)
(* ===================================================================== *)

Definition IAM_TOKEN_URL : string := "https://iam.cloud.ibm.com/identity/token".
Definition API_VERSION : string := "2024-03-14".
Definition DEFAULT_MAX_TOKENS : number := 4096%float.
Definition DEFAULT_TEMPERATURE : number := 0.7%float.

(** [interface TokenCache] *)
Record TokenCache : Type := mkTokenCache {
  token : string;
  expiresAt : number
}.

(** Content blocks of a message. Only [TextContent] has a [text]. *)
Inductive ContentBlock : Type :=
| TextContent (text : string)
| ImageContent (data mimeType : string)
| ThinkingContent (thinking : string)
| ToolCall (id name : string).

(** [msg.content]: a plain string or an array of blocks. *)
Inductive MessageContent : Type :=
| ContentString (s : string)
| ContentBlocks (blocks : list ContentBlock).

Inductive Role : Type := user | assistant | toolResult.

Record Message : Type := mkMessage {
  role : Role;
  content : MessageContent
}.

Record Context : Type := mkContext {
  systemPrompt : option string;
  messages : list Message
}.

(** [model.cost] *)
Record ModelCost : Type := mkModelCost {
  price_input : number;
  price_output : number;
  price_cacheRead : number;
  price_cacheWrite : number
}.

Record Model : Type := mkModel {
  model_id : string;
  model_api : string;
  model_provider : string;
  model_baseUrl : option string;
  model_cost : option ModelCost
}.

(** The value of a generation parameter: a number ([top_p], [top_k],
    [repetition_penalty], ...), a string ([decoding_method]) or a list of
    strings ([stop_sequences]). *)
Inductive ParameterValue : Type :=
| param_number (n : number)
| param_string (s : string)
| param_strings (l : list string).

(** An [AbortSignal], by identity. *)
Definition AbortSignal : Type := nat.

Record WatsonxStreamOptions : Type := mkOptions {
  opt_apiKey : option string;
  opt_projectId : option string;
  opt_maxTokens : option number;
  opt_temperature : option number;
  (** [parameters]: an object, with whatever properties it has *)
  opt_parameters : option (gmap string ParameterValue);
  opt_headers : option (gmap string string);
  opt_signal : option AbortSignal
}.

Record Cost : Type := mkCost {
  cost_input : number;
  cost_output : number;
  cost_cacheRead : number;
  cost_cacheWrite : number;
  cost_total : number
}.

Record Usage : Type := mkUsage {
  usage_input : number;
  usage_output : number;
  usage_cacheRead : number;
  usage_cacheWrite : number;
  usage_totalTokens : number;
  usage_cost : Cost
}.

Inductive StopReason : Type := stop | error.

(** The [output] message of one stream ([role] is always "assistant"). *)
Record AssistantMessage : Type := mkAssistantMessage {
  out_content : list ContentBlock;
  out_api : string;
  out_provider : string;
  out_model : string;
  out_usage : Usage;
  out_stopReason : StopReason;
  out_errorMessage : option string;
  out_timestamp : number
}.

(** The events of the stream. In the source every event also carries a
    reference ([partial], [message] or [error]) to the one [output] object
    of the invocation, which the orchestrator keeps mutating; the reference
    is always the same, so it is left implicit and the object itself lives
    in the [Heap]. *)
Inductive AssistantMessageEvent : Type :=
| ev_start
| ev_text_start (contentIndex : nat)
| ev_text_delta (contentIndex : nat) (delta : string)
| ev_text_end (contentIndex : nat) (content : string)
| ev_done (reason : StopReason)
| ev_error (reason : StopReason).

(** One element of [parsed.results]. *)
Record GenerationResult : Type := mkResult {
  generated_text : option string;
  generated_token_count : option number;
  input_token_count : option number;
  stop_reason : option string
}.

(** The value of [JSON.parse(data)] under the cast of the source. *)
Record Payload : Type := mkPayload {
  results : option (list GenerationResult)
}.

(* ===================================================================== *)
(** ** The outside world *)
(* ===================================================================== *)

(** The parsed body of a successful identity-endpoint reply. *)
Record IamTokenData : Type := mkIamTokenData {
  access_token : string;
  expires_in : number
}.

(** A reply of the identity endpoint: [response.ok], [response.status],
    what [response.text()] resolves to ([None] when it rejects) and what
    [response.json()] does. *)
Record IamResponse : Type := mkIamResponse {
  iam_ok : bool;
  iam_status : N;
  iam_text : option string;
  iam_json : thrown + IamTokenData
}.

(** The response body of the generation endpoint as the reader delivers
    it: the decoded text of each chunk ([decoder.decode(value, {stream:
    true})]), and how reading ends: [None] for [done], [Some e] when
    [reader.read()] rejects with [e]. *)
Record BodyStream : Type := mkBodyStream {
  body_chunks : list string;
  body_failure : option thrown
}.

Record GenResponse : Type := mkGenResponse {
  gen_ok : bool;
  gen_status : N;
  gen_text : option string;
  gen_body : option BodyStream
}.

(** [await fetch(...)]: rejects or resolves to a response. *)
Inductive FetchResult (R : Type) : Type :=
| Rejects (e : thrown)
| Resolves (response : R).
Arguments Rejects {R} e.
Arguments Resolves {R} response.

Record World : Type := mkWorld {
  env_WATSONX_API_KEY : option string;
  env_WATSONX_PROJECT_ID : option string;
  (** [Date.now()] where [output] is built *)
  now_timestamp : number;
  (** [Date.now()] where the cache entry is tested *)
  now_lookup : number;
  (** [Date.now()] where the new entry is built *)
  now_store : number;
  iam_endpoint : FetchResult IamResponse;
  generation_endpoint : FetchResult GenResponse
}.

(** The body of the generation request, before [JSON.stringify];
    [parameters] is the object with the two defaults and [options.parameters]
    spread over them. *)
Record GenerationBody : Type := mkGenerationBody {
  body_model_id : string;
  body_input : string;
  body_project_id : string;
  body_parameters : gmap string ParameterValue
}.

(** The two calls of [fetch]. The request to the identity endpoint has
    fixed headers; [headers] of the generation request is the object the
    source passes to [fetch]. *)
Inductive Request : Type :=
| IamTokenRequest (url grant_type apikey : string) (signal : option AbortSignal)
| GenerationRequest (url : string) (headers : gmap string string)
    (body : GenerationBody) (signal : option AbortSignal).

(** What one invocation does that can be observed, in order. *)
Inductive Action : Type :=
| Fetched (r : Request)
| Emit (e : AssistantMessageEvent)
| ReleaseLock.

(** The mutable state of one invocation: the module-level [tokenCache], the
    [output] object, the local variables [buffer], [fullText] and
    [startedText] of the read loop (they are assigned inside [try] blocks, so
    they are state, not results), and the actions so far, latest last. *)
Record State : Type := mkState {
  tokenCache : gmap string TokenCache;
  output : AssistantMessage;
  buffer : string;
  fullText : string;
  startedText : bool;
  trace : list Action
}.

(* ===================================================================== *)
(** ** A state-and-exception monad *)
(* ===================================================================== *)

Inductive Completion (A : Type) : Type :=
| Normal (a : A)
| Throw (e : thrown).
Arguments Normal {A} a.
Arguments Throw {A} e.

Definition M (A : Type) : Type := State -> Completion A * State.

Definition ret {A : Type} (a : A) : M A := fun s => (Normal a, s).

Definition bind {A B : Type} (m : M A) (k : A -> M B) : M B :=
  fun s =>
    match m s with
    | (Normal a, s') => k a s'
    | (Throw e, s') => (Throw e, s')
    end.

Notation "'let*' x ':=' m 'in' k" := (bind m (fun x => k))
  (at level 10, x name, m at level 100, k at level 200).
Notation "m ';;' k" := (bind m (fun _ => k))
  (at level 100, k at level 200, right associativity).

Definition throw {A : Type} (e : thrown) : M A := fun s => (Throw e, s).

(** [try { m } catch (e) { handler e }] *)
Definition try_catch {A : Type} (m : M A) (handler : thrown -> M A) : M A :=
  fun s =>
    match m s with
    | (Normal a, s') => (Normal a, s')
    | (Throw e, s') => handler e s'
    end.

(** [try { m } finally { fin }] *)
Definition try_finally {A : Type} (m : M A) (fin : M unit) : M A :=
  fun s =>
    match m s with
    | (c, s') =>
        match fin s' with
        | (Normal _, s'') => (c, s'')
        | (Throw e, s'') => (Throw e, s'')
        end
    end.

Fixpoint for_of {A : Type} (l : list A) (body : A -> M unit) : M unit :=
  match l with
  | [] => ret tt
  | x :: rest => body x ;; for_of rest body
  end.

Definition get {A : Type} (f : State -> A) : M A := fun s => (Normal (f s), s).
Definition modify (f : State -> State) : M unit := fun s => (Normal tt, f s).

Definition set_tokenCache (c : gmap string TokenCache) (s : State) : State :=
  mkState c (output s) (buffer s) (fullText s) (startedText s) (trace s).
Definition set_output (o : AssistantMessage) (s : State) : State :=
  mkState (tokenCache s) o (buffer s) (fullText s) (startedText s) (trace s).
Definition set_buffer (b : string) (s : State) : State :=
  mkState (tokenCache s) (output s) b (fullText s) (startedText s) (trace s).
Definition set_fullText (t : string) (s : State) : State :=
  mkState (tokenCache s) (output s) (buffer s) t (startedText s) (trace s).
Definition set_startedText (b : bool) (s : State) : State :=
  mkState (tokenCache s) (output s) (buffer s) (fullText s) b (trace s).
Definition log (a : Action) (s : State) : State :=
  mkState (tokenCache s) (output s) (buffer s) (fullText s) (startedText s)
    (trace s ++ [a]).

(** [stream.push(e)] *)
Definition push (e : AssistantMessageEvent) : M unit := modify (log (Emit e)).

(** [await fetch(url, init)]: the request is made, then the call either
    rejects or resolves as the world decides. *)
Definition fetch {R : Type} (req : Request) (reply : FetchResult R) : M R :=
  modify (log (Fetched req)) ;;
  match reply with
  | Rejects e => throw e
  | Resolves response => ret response
  end.

(* ===================================================================== *)
(** ** [getIamToken] *)
(* ===================================================================== *)

Local Open Scope float_scope.

(** [apiKey.slice(0, 16)] *)
Definition cacheKey (apiKey : string) : string := slice apiKey 0 16.

Definition getIamToken (w : World) (apiKey : string)
    (signal : option AbortSignal) : M string :=
  let cacheKey := slice apiKey 0 16 in
  let* cached := get (fun s => tokenCache s !! cacheKey) in
  let exchange : M string :=
    let* response :=
      fetch (IamTokenRequest IAM_TOKEN_URL
               "urn:ibm:params:oauth:grant-type:apikey" apiKey signal)
            (iam_endpoint w) in
    if negb (iam_ok response) then
      let error := default "Unknown error"%string (iam_text response) in
      throw (Error ("IBM IAM token exchange failed: " +:+
                    pretty (iam_status response) +:+ " - " +:+ error))
    else
      match iam_json response with
      | inl e => throw e
      | inr data =>
          let expiresAt := now_store w + expires_in data * 1000 in
          modify (fun s =>
            set_tokenCache
              (<[cacheKey := mkTokenCache (access_token data) expiresAt]>
                 (tokenCache s)) s) ;;
          ret (access_token data)
      end in
  match cached with
  | Some c =>
      (* cached.expiresAt > Date.now() + 300_000 *)
      if PrimFloat.ltb (now_lookup w + 300000) (expiresAt c)
      then ret (token c)
      else exchange
  | None => exchange
  end.

(* ===================================================================== *)
(** ** [buildWatsonxPrompt] *)
(* ===================================================================== *)

(** [c.type === "text"] *)
Definition is_text (c : ContentBlock) : bool :=
  match c with
  | TextContent _ => true
  | _ => false
  end.

(** [c.text]; blocks of the other kinds have none, and [join] renders
    [undefined] as the empty string. *)
Definition block_text (c : ContentBlock) : string :=
  match c with
  | TextContent t => t
  | _ => ""%string
  end.

(** [content.filter(c => c.type === "text").map(c => c.text).join("\n")] *)
Definition text_of_blocks (blocks : list ContentBlock) : string :=
  join nl (map block_text (List.filter is_text blocks)).

(** The loop over [context.messages]. The assistant branch calls
    [msg.content.filter] with no [typeof] test: on a string that is a
    [TypeError]. *)
Fixpoint render_messages (msgs : list Message) (parts : list string)
    : thrown + list string :=
  match msgs with
  | [] => inr parts
  | msg :: rest =>
      match role msg with
      | user =>
          let content :=
            match content msg with
            | ContentString s => s
            | ContentBlocks blocks => text_of_blocks blocks
            end in
          render_messages rest
            (parts ++ ["<|user|>" +:+ nl +:+ content +:+ nl +:+ "<|end|>"])
      | assistant =>
          match content msg with
          | ContentString _ =>
              inl (Error "msg.content.filter is not a function")
          | ContentBlocks blocks =>
              let content := text_of_blocks blocks in
              render_messages rest
                (parts ++ ["<|assistant|>" +:+ nl +:+ content +:+ nl +:+ "<|end|>"])
          end
      | toolResult => render_messages rest parts
      end
  end.

Definition buildWatsonxPrompt (context : Context) : thrown + string :=
  let parts : list string :=
    match systemPrompt context with
    | Some sp =>
        if truthy (trim sp)
        then ["<|system|>" +:+ nl +:+ sp +:+ nl +:+ "<|end|>"]
        else []
    | None => []
    end in
  match render_messages (messages context) parts with
  | inl e => inl e
  | inr parts => inr (join nl (parts ++ ["<|assistant|>" +:+ nl]))
  end.

(* ===================================================================== *)
(** ** [streamWatsonx] *)
(* ===================================================================== *)

Section Stream.

(** [JSON.parse(data)] followed by the cast of the source: the parsed
    payload, or the [SyntaxError] it throws. A parsed value on which the
    body of the inner [try] throws before it changes anything ([null], a
    [generated_text] that is a number) is skipped like a text that does not
    parse, so it is an [inl] as well; other values outside the declared
    shape are not modelled. *)
Variable JSON_parse : string -> thrown + Payload.

Definition contentIndex : nat := 0.

(** [a ?? b] *)
Definition nullish {A : Type} (a b : option A) : option A :=
  match a with
  | Some x => Some x
  | None => b
  end.

(** [if (!v) throw new Error(message)], after which [v] is a string. *)
Definition required (v : option string) (message : string) : M string :=
  match v with
  | Some x => if truthy x then ret x else throw (Error message)
  | None => throw (Error message)
  end.

(** The [output] object as it is built at the call. *)
Definition new_output (model : Model) (w : World) : AssistantMessage :=
  {| out_content := [];
     out_api := model_api model;
     out_provider := model_provider model;
     out_model := model_id model;
     out_usage := mkUsage 0 0 0 0 0 (mkCost 0 0 0 0 0);
     out_stopReason := stop;
     out_errorMessage := None;
     out_timestamp := now_timestamp w |}.

Definition with_content (f : list ContentBlock -> list ContentBlock)
    (o : AssistantMessage) : AssistantMessage :=
  mkAssistantMessage (f (out_content o)) (out_api o) (out_provider o)
    (out_model o) (out_usage o) (out_stopReason o) (out_errorMessage o)
    (out_timestamp o).

Definition with_usage (f : Usage -> Usage) (o : AssistantMessage)
    : AssistantMessage :=
  mkAssistantMessage (out_content o) (out_api o) (out_provider o)
    (out_model o) (f (out_usage o)) (out_stopReason o) (out_errorMessage o)
    (out_timestamp o).

Definition with_error (message : string) (o : AssistantMessage)
    : AssistantMessage :=
  mkAssistantMessage (out_content o) (out_api o) (out_provider o)
    (out_model o) (out_usage o) error (Some message) (out_timestamp o).

Definition set_usage_input (n : number) (u : Usage) : Usage :=
  mkUsage n (usage_output u) (usage_cacheRead u) (usage_cacheWrite u)
    (usage_totalTokens u) (usage_cost u).

Definition set_usage_output (n : number) (u : Usage) : Usage :=
  mkUsage (usage_input u) n (usage_cacheRead u) (usage_cacheWrite u)
    (usage_totalTokens u) (usage_cost u).

Definition set_usage_totalTokens (n : number) (u : Usage) : Usage :=
  mkUsage (usage_input u) (usage_output u) (usage_cacheRead u)
    (usage_cacheWrite u) n (usage_cost u).

Definition set_usage_cost (c : Cost) (u : Usage) : Usage :=
  mkUsage (usage_input u) (usage_output u) (usage_cacheRead u)
    (usage_cacheWrite u) (usage_totalTokens u) c.

Definition modify_output (f : AssistantMessage -> AssistantMessage) : M unit :=
  modify (fun s => set_output (f (output s)) s).

(** [block.text = t] *)
Definition set_block_text (t : string) (c : ContentBlock) : ContentBlock :=
  match c with
  | TextContent _ => TextContent t
  | other => other
  end.

(** [const textBlock = output.content[i]; textBlock.text = t]: a
    [TypeError] when there is no block at [i]. *)
Definition assign_text (i : nat) (t : string) : M unit :=
  let* block := get (fun s => out_content (output s) !! i) in
  match block with
  | Some _ => modify_output (with_content (alter (set_block_text t) i))
  | None =>
      throw (Error "Cannot set properties of undefined (setting 'text')")
  end.

(** [if (result?.generated_text) { ... }] *)
Definition on_generated_text (result : option GenerationResult) : M unit :=
  match result ≫= generated_text with
  | Some text =>
      if truthy text then
        let* full := get fullText in
        let newText := slice_from text (String.length full) in
        if truthy newText then
          (* Emit text_start on first text *)
          let* started := get startedText in
          (if negb started then
             modify (set_startedText true) ;;
             modify_output
               (with_content (fun c => (c ++ [TextContent ""%string])%list)) ;;
             push (ev_text_start contentIndex)
           else ret tt) ;;
          modify (set_fullText text) ;;
          (* Update the text content *)
          let* full := get fullText in
          assign_text contentIndex full ;;
          push (ev_text_delta contentIndex newText)
        else ret tt
      else ret tt
  | None => ret tt
  end.

(** [if (result?.input_token_count) { ... }] *)
Definition on_input_token_count (result : option GenerationResult) : M unit :=
  match result ≫= input_token_count with
  | Some n =>
      if truthy_number n
      then modify_output (with_usage (set_usage_input n))
      else ret tt
  | None => ret tt
  end.

(** [if (result?.generated_token_count) { ... }] *)
Definition on_generated_token_count (result : option GenerationResult)
    : M unit :=
  match result ≫= generated_token_count with
  | Some n =>
      if truthy_number n
      then modify_output (with_usage (set_usage_output n))
      else ret tt
  | None => ret tt
  end.

(** [parsed.results?.[0]] *)
Definition first_result (parsed : Payload) : option GenerationResult :=
  results parsed ≫= (fun rs => rs !! 0%nat).

(** The body of the inner [try] once [data] is parsed. *)
Definition process_payload (parsed : Payload) : M unit :=
  let result := first_result parsed in
  on_generated_text result ;;
  on_input_token_count result ;;
  on_generated_token_count result.

(** The body of [for (const line of lines)]. *)
Definition process_line (line : string) : M unit :=
  if negb (startsWith line "data:") then ret tt
  else
    let data := trim (slice_from line 5) in
    if String.eqb data "[DONE]" then ret tt
    else
      try_catch
        (match JSON_parse data with
         | inl e => throw e
         | inr parsed => process_payload parsed
         end)
        (fun _ => ret tt (* Skip malformed JSON *)).

(** The [while (true)] loop over [reader.read()]. *)
Fixpoint read_loop (chunks : list string) (failure : option thrown) : M unit :=
  match chunks with
  | [] =>
      match failure with
      | Some e => throw e
      | None => ret tt (* done: break *)
      end
  | value :: rest =>
      modify (fun s => set_buffer (buffer s +:+ value) s) ;;
      let* buf := get buffer in
      let (lines, last) := pop (split_nl buf) in
      modify (set_buffer (default ""%string last)) ;;
      for_of lines process_line ;;
      read_loop rest failure
  end.

(** The final usage and cost. *)
Definition final_usage (model : Model) (u : Usage) : Usage :=
  let u := set_usage_totalTokens (usage_input u + usage_output u) u in
  let cost := default (mkModelCost 0 0 0 0) (model_cost model) in
  set_usage_cost
    {| cost_input := (usage_input u / 1000000) * price_input cost;
       cost_output := (usage_output u / 1000000) * price_output cost;
       cost_cacheRead := 0;
       cost_cacheWrite := 0;
       cost_total :=
         (usage_input u / 1000000) * price_input cost +
         (usage_output u / 1000000) * price_output cost |} u.

(** The first half of the outer [try]: configuration, token, request,
    and the checks of the response. It hands over the body to read. *)
Definition open_stream (model : Model) (context : Context)
    (options : option WatsonxStreamOptions) (w : World) : M BodyStream :=
  let* apiKey :=
    required (nullish (options ≫= opt_apiKey) (env_WATSONX_API_KEY w))
      "Watsonx API key required. Set WATSONX_API_KEY or pass apiKey option." in
  let* projectId :=
    required (nullish (options ≫= opt_projectId) (env_WATSONX_PROJECT_ID w))
      "Watsonx project ID required. Set WATSONX_PROJECT_ID or pass projectId option." in
  (* Get IAM token *)
  let* token := getIamToken w apiKey (options ≫= opt_signal) in
  (* Build request *)
  let baseUrl :=
    default "https://us-south.ml.cloud.ibm.com"%string (model_baseUrl model) in
  let url :=
    (baseUrl +:+ "/ml/v1/text/generation_stream?version=" +:+ API_VERSION)%string in
  let* prompt :=
    match buildWatsonxPrompt context with
    | inl e => throw e
    | inr prompt => ret prompt
    end in
  let body :=
    {| body_model_id := model_id model;
       body_input := prompt;
       body_project_id := projectId;
       body_parameters :=
         spread
           {[ "max_new_tokens"%string :=
                param_number
                  (default DEFAULT_MAX_TOKENS (options ≫= opt_maxTokens));
              "temperature"%string :=
                param_number
                  (default DEFAULT_TEMPERATURE (options ≫= opt_temperature)) ]}
           (default ∅ (options ≫= opt_parameters)) |} in
  let headers :=
    spread
      {[ "Authorization"%string := ("Bearer " +:+ token)%string;
         "Content-Type"%string := "application/json"%string;
         "Accept"%string := "text/event-stream"%string ]}
      (default ∅ (options ≫= opt_headers)) in
  let* response :=
    fetch (GenerationRequest url headers body (options ≫= opt_signal))
          (generation_endpoint w) in
  if negb (gen_ok response) then
    let error := default "Unknown error"%string (gen_text response) in
    throw (Error ("Watsonx API error: " +:+ pretty (gen_status response)
                  +:+ " - " +:+ error))
  else
    match gen_body response with
    | None => throw (Error "Watsonx response body is null")
    | Some body => ret body
    end.

(** The second half of the outer [try]: the [start] event, the read
    loop, the final usage, [text_end] and [done]. *)
Definition consume_stream (model : Model) (body : BodyStream) : M unit :=
  (* Emit start event *)
  push ev_start ;;
  (* Parse SSE stream *)
  modify (set_buffer ""%string) ;;
  modify (set_fullText ""%string) ;;
  modify (set_startedText false) ;;
  try_finally
    (read_loop (body_chunks body) (body_failure body))
    (modify (log ReleaseLock)) ;;
  (* Update final usage *)
  modify_output (with_usage (final_usage model)) ;;
  (* Emit text_end if we had text *)
  let* started := get startedText in
  (if started then
     let* full := get fullText in
     push (ev_text_end contentIndex full)
   else ret tt) ;;
  (* Emit done event *)
  push (ev_done stop).

(** The body of the outer [try]. *)
Definition stream_try (model : Model) (context : Context)
    (options : option WatsonxStreamOptions) (w : World) : M unit :=
  let* body := open_stream model context options w in
  consume_stream model body.

(** [error instanceof Error ? error.message : String(error)] *)
Definition error_message (e : thrown) : string :=
  match e with
  | Error message => message
  | NotAnError stringified => stringified
  end.

(** The [catch] of the outer [try]. *)
Definition stream_catch (e : thrown) : M unit :=
  modify_output (with_error (error_message e)) ;;
  push (ev_error error).

(** The state in which the asynchronous body starts: the process-wide
    cache as it is, the fresh [output], and nothing done yet. *)
Definition initial_state (model : Model) (w : World)
    (cache : gmap string TokenCache) : State :=
  {| tokenCache := cache;
     output := new_output model w;
     buffer := ""%string;
     fullText := ""%string;
     startedText := false;
     trace := [] |}.

(** [streamWatsonx(model, context, options)], run to the end of its
    asynchronous body: the final state, whose [trace] holds the events of
    the returned stream and whose [output] is the object they refer to. *)
Definition streamWatsonx (model : Model) (context : Context)
    (options : option WatsonxStreamOptions) (w : World)
    (cache : gmap string TokenCache) : State :=
  snd (try_catch (stream_try model context options w) stream_catch
         (initial_state model w cache)).

(** *** [streamSimpleWatsonx] *)

(** [streamWatsonx(model, context, options as WatsonxStreamOptions)]:
    the cast is erased when the source is compiled, so the options object
    is handed on as it is, with whatever properties it has. *)
Definition streamSimpleWatsonx (model : Model) (context : Context)
    (options : option WatsonxStreamOptions) (w : World)
    (cache : gmap string TokenCache) : State :=
  streamWatsonx model context options w cache.

(** *** The frames of a response body

    The lines the read loop hands to [process_line], the payloads it gets
    from them and the cumulative texts they carry: what the statements
    about "the sequence of frames" quantify over. *)

(** The complete lines of the chunks, given what is left in the buffer. *)
Fixpoint body_lines (buf : string) (chunks : list string) : list string :=
  match chunks with
  | [] => []
  | value :: rest =>
      let (lines, last) := pop (split_nl (buf +:+ value)) in
      (lines ++ body_lines (default ""%string last) rest)%list
  end.

(** The payload of a line, when it is a data line that parses. *)
Definition frame_of_line (line : string) : option Payload :=
  if negb (startsWith line "data:") then None
  else
    let data := trim (slice_from line 5) in
    if String.eqb data "[DONE]" then None
    else
      match JSON_parse data with
      | inl _ => None
      | inr parsed => Some parsed
      end.

(** [generated_text] of the first result of a payload. *)
Definition frame_text (parsed : Payload) : option string :=
  first_result parsed ≫= generated_text.

(** The cumulative texts of the frames of some lines, in order. *)
Definition line_texts (lines : list string) : list string :=
  omap (fun line => frame_of_line line ≫= frame_text) lines.

(** The cumulative texts of the frames of a response body. *)
Definition body_texts (chunks : list string) : list string :=
  line_texts (body_lines ""%string chunks).

(** The cumulative texts a world delivers: those of the response body,
    when there is one. *)
Definition world_texts (w : World) : list string :=
  match generation_endpoint w with
  | Resolves response =>
      match gen_body response with
      | Some body => body_texts (body_chunks body)
      | None => []
      end
  | Rejects _ => []
  end.

End Stream.

Local Close Scope float_scope.

(* ===================================================================== *)
(** ** What is observed of a run *)
(* ===================================================================== *)

(** The events of a trace. *)
Definition trace_events (t : list Action) : list AssistantMessageEvent :=
  omap (fun a => match a with Emit e => Some e | _ => None end) t.

(** The events pushed on the stream, in order. *)
Definition events (s : State) : list AssistantMessageEvent :=
  trace_events (trace s).

(** The requests made, in order. *)
Definition requests (s : State) : list Request :=
  omap (fun a => match a with Fetched r => Some r | _ => None end) (trace s).

(** The [delta] of every [text_delta] event, in order. *)
Definition deltas (es : list AssistantMessageEvent) : list string :=
  omap (fun e => match e with ev_text_delta _ d => Some d | _ => None end) es.

(** The [content] of every [text_end] event, in order. *)
Definition text_ends (es : list AssistantMessageEvent) : list string :=
  omap (fun e => match e with ev_text_end _ c => Some c | _ => None end) es.

Definition is_terminal (e : AssistantMessageEvent) : bool :=
  match e with
  | ev_done _ | ev_error _ => true
  | _ => false
  end.

(** The events of the read loop. *)
Definition body_event (e : AssistantMessageEvent) : bool :=
  match e with
  | ev_text_start _ | ev_text_delta _ _ => true
  | _ => false
  end.

(** The actions of the read loop: [text_start] and [text_delta] events. *)
Definition body_action (a : Action) : bool :=
  match a with
  | Emit e => body_event e
  | _ => false
  end.

Definition is_fetch (a : Action) : bool :=
  match a with
  | Fetched _ => true
  | _ => false
  end.

Definition is_generation_request (a : Action) : bool :=
  match a with
  | Fetched (GenerationRequest _ _ _ _) => true
  | _ => false
  end.

(** What may follow [start]: no request and no second [start]. *)
Definition after_start (a : Action) : bool :=
  match a with
  | Fetched _ | Emit ev_start => false
  | _ => true
  end.

(** The one request [getIamToken] makes. *)
Definition iam_request (apiKey : string) (signal : option AbortSignal)
    : Action :=
  Fetched (IamTokenRequest IAM_TOKEN_URL
             "urn:ibm:params:oauth:grant-type:apikey" apiKey signal).

Definition missing_apiKey_message : string :=
  "Watsonx API key required. Set WATSONX_API_KEY or pass apiKey option.".

Definition missing_projectId_message : string :=
  "Watsonx project ID required. Set WATSONX_PROJECT_ID or pass projectId option.".

(** The concatenation of strings, in order. *)
Definition concatenation (l : list string) : string :=
  foldr String.append ""%string l.

(** Every text extends the one before it, starting from [prev]. *)
Fixpoint cumulative_from (prev : string) (texts : list string) : bool :=
  match texts with
  | [] => true
  | text :: rest => String.prefix prev text && cumulative_from text rest
  end.

(** Monotonically non-decreasing cumulative text. *)
Definition cumulative (texts : list string) : bool :=
  cumulative_from ""%string texts.

(** The last text of a sequence of cumulative texts ([""] when there is
    none). *)
Definition final_text (texts : list string) : string :=
  default ""%string (last texts).

(** A string without a newline. *)
Fixpoint no_newline (s : string) : bool :=
  match s with
  | EmptyString => true
  | String c s' => negb (Ascii.eqb c "010"%char) && no_newline s'
  end.

(** A result with its [input_token_count] field absent. *)
Definition without_input_token_count (r : GenerationResult)
    : GenerationResult :=
  mkResult (generated_text r) (generated_token_count r) None (stop_reason r).

(** A result with its [generated_token_count] field absent. *)
Definition without_generated_token_count (r : GenerationResult)
    : GenerationResult :=
  mkResult (generated_text r) None (input_token_count r) (stop_reason r).

(** *** The states a run goes through *)

(** [s'] is [s] after some more actions, all of them in [P]. *)
Definition extends (P : Action -> bool) (s s' : State) : Prop :=
  exists t, trace s' = (trace s ++ t)%list /\ forallb P t = true.

(** The state in which the read loop starts, after [start] is pushed. *)
Definition loop_start (s : State) : State :=
  set_startedText false
    (set_fullText ""%string (set_buffer ""%string (log (Emit ev_start) s))).

(** The state after the [catch] of the outer [try]. *)
Definition caught (e : thrown) (s : State) : State :=
  log (Emit (ev_error error))
    (set_output (with_error (error_message e) (output s)) s).

(** The state after a read loop that came to its end. *)
Definition completed (model : Model) (s : State) : State :=
  let s3 :=
    set_output (with_usage (final_usage model) (output s)) (log ReleaseLock s) in
  log (Emit (ev_done stop))
    (if startedText s
     then log (Emit (ev_text_end contentIndex (fullText s))) s3
     else s3).

(** The invariant of the read loop: the deltas emitted so far add up to
    [fullText]; the text block exists once [startedText] is set;
    [startedText] is set exactly when a delta has been emitted; no
    [text_end] has been emitted. *)
Definition text_invariant (s : State) : Prop :=
  concatenation (deltas (events s)) = fullText s /\
  (startedText s = true -> out_content (output s) <> []) /\
  (startedText s = true <-> deltas (events s) <> []) /\
  text_ends (events s) = [].

(** *** The rendering of one message, in the words of the specification *)

(** The text of a message: the plain string itself, or its text blocks
    joined by a single newline, the other blocks dropped. *)
Definition message_text (c : MessageContent) : string :=
  match c with
  | ContentString s => s
  | ContentBlocks blocks =>
      join nl
        (omap (fun b => match b with TextContent t => Some t | _ => None end)
           blocks)
  end.

Definition role_marker (r : Role) : string :=
  match r with
  | user => "<|user|>"
  | assistant => "<|assistant|>"
  | toolResult => ""
  end.

(** The segment of a message: its text between the markers of its role. *)
Definition segment (msg : Message) : string :=
  role_marker (role msg) +:+ nl +:+ message_text (content msg) +:+ nl +:+ "<|end|>".

(** The system segment, when the system prompt is not blank. *)
Definition system_segment (context : Context) : list string :=
  match systemPrompt context with
  | Some sp =>
      if truthy (trim sp)
      then ["<|system|>" +:+ nl +:+ sp +:+ nl +:+ "<|end|>"]
      else []
  | None => []
  end.

(** A message as the types of the host framework have it: a user turn
    with a string or blocks, or an assistant turn with blocks. *)
Definition well_typed (msg : Message) : Prop :=
  role msg = user \/
  (role msg = assistant /\ exists blocks, content msg = ContentBlocks blocks).

(** *** More on the prompt *)

(** An assistant turn whose content is a plain string. *)
Definition assistant_string (msg : Message) : bool :=
  match role msg, content msg with
  | assistant, ContentString _ => true
  | _, _ => false
  end.

(** The turns that are rendered: user and assistant turns. *)
Definition rendered (msg : Message) : bool :=
  match role msg with
  | toolResult => false
  | _ => true
  end.

(** The opening of the assistant turn that ends the prompt. *)
Definition priming_marker : string := "<|assistant|>" +:+ nl.


(** *** The read loop as a fold over frames *)

(** The payloads of the data lines of a body that parse, in order. *)
Definition body_frames (JSON_parse : string -> thrown + Payload)
    (chunks : list string) : list Payload :=
  omap (frame_of_line JSON_parse) (body_lines ""%string chunks).

(** The frames a world delivers: those of the response body, when there
    is one. *)
Definition world_frames (JSON_parse : string -> thrown + Payload)
    (w : World) : list Payload :=
  match generation_endpoint w with
  | Resolves response =>
      match gen_body response with
      | Some body => body_frames JSON_parse (body_chunks body)
      | None => []
      end
  | Rejects _ => []
  end.

(** The whole text of the body a world delivers. *)
Definition world_body_text (w : World) : string :=
  match generation_endpoint w with
  | Resolves response =>
      match gen_body response with
      | Some body => concatenation (body_chunks body)
      | None => ""%string
      end
  | Rejects _ => ""%string
  end.

(** The state after the frames [frames] have been processed from [s]. *)
Definition after_frames (frames : list Payload) (s : State) : State :=
  fold_left (fun st parsed => snd (process_payload parsed st)) frames s.

(** What is left in [buffer] after the chunks. *)
Fixpoint final_buffer (buf : string) (chunks : list string) : string :=
  match chunks with
  | [] => buf
  | value :: rest =>
      final_buffer (default ""%string (last (split_nl (buf +:+ value)))) rest
  end.

(** The world [w] with the body of its response cut into [chunks]
    instead. *)
Definition with_chunks (chunks : list string) (w : World) : World :=
  mkWorld (env_WATSONX_API_KEY w) (env_WATSONX_PROJECT_ID w)
    (now_timestamp w) (now_lookup w) (now_store w) (iam_endpoint w)
    (match generation_endpoint w with
     | Rejects e => Rejects e
     | Resolves response =>
         Resolves
           (mkGenResponse (gen_ok response) (gen_status response)
              (gen_text response)
              (option_map (fun body => mkBodyStream chunks (body_failure body))
                 (gen_body response)))
     end).


(** The chunks of the body a world delivers. *)
Definition world_chunks (w : World) : list string :=
  match generation_endpoint w with
  | Resolves response =>
      match gen_body response with
      | Some body => body_chunks body
      | None => []
      end
  | Rejects _ => []
  end.


(** *** The text channel *)

(** The state after a frame that carries the cumulative text [text]:
    nothing changes when the text is empty or brings nothing beyond what
    has been seen; otherwise the text block is set to the text, a
    [text_start] is emitted if none was, and the new suffix is emitted as a
    delta. *)
Definition text_step (text : string) (s : State) : State :=
  let newText := slice_from text (String.length (fullText s)) in
  if truthy text && truthy newText then
    mkState (tokenCache s)
      (with_content (fun _ => [TextContent text]) (output s))
      (buffer s) text true
      (trace s
       ++ (if startedText s then [] else [Emit (ev_text_start contentIndex)])
       ++ [Emit (ev_text_delta contentIndex newText)])
  else s.

(** [output.content] holds no block before the first delta and the one
    text block, with the text seen so far, after it. *)
Definition block_invariant (s : State) : Prop :=
  out_content (output s)
  = if startedText s then [TextContent (fullText s)] else [].

(** The text events of a stream whose deltas are [ds]. *)
Definition text_events (ds : list string) : list AssistantMessageEvent :=
  match ds with
  | [] => []
  | _ :: _ => ev_text_start contentIndex :: map (ev_text_delta contentIndex) ds
  end.

(** The [text_end] of a stream whose deltas are [ds] and whose text is
    [t]. *)
Definition text_end_events (ds : list string) (t : string)
    : list AssistantMessageEvent :=
  match ds with
  | [] => []
  | _ :: _ => [ev_text_end contentIndex t]
  end.

(** The content of the message of such a stream. *)
Definition text_blocks (ds : list string) (t : string) : list ContentBlock :=
  match ds with
  | [] => []
  | _ :: _ => [TextContent t]
  end.

(** The events so far are [start] and the text events of some non-empty
    deltas, and [startedText] tells whether there is any. *)
Definition channel_invariant (s : State) : Prop :=
  exists ds,
    events s = ev_start :: text_events ds /\
    forallb truthy ds = true /\
    startedText s = match ds with [] => false | _ :: _ => true end.

(** The fields of the message that a stream never changes before it
    ends. *)
Definition same_header (o o' : AssistantMessage) : Prop :=
  out_api o' = out_api o /\ out_provider o' = out_provider o /\
  out_model o' = out_model o /\ out_stopReason o' = out_stopReason o /\
  out_errorMessage o' = out_errorMessage o /\
  out_timestamp o' = out_timestamp o.


(** *** The generation request *)

(** The headers of the caller: [options?.headers ?? {}]. *)
Definition caller_headers (options : option WatsonxStreamOptions)
    : gmap string string :=
  default ∅ (options ≫= opt_headers).

(** The request to the generation endpoint, for a project, a token and
    a prompt: the URL from the base URL of the model (the public endpoint
    when it has none); as headers the bearer token, the content type and
    the accepted type, with the headers of the caller spread over them; and
    in the body the model, the prompt, the project, and as parameters
    [max_new_tokens] and [temperature] (from the options or the defaults)
    with the parameters of the caller spread over them. *)
Definition generation_request (model : Model)
    (options : option WatsonxStreamOptions)
    (projectId token prompt : string) : Request :=
  GenerationRequest
    (default "https://us-south.ml.cloud.ibm.com" (model_baseUrl model)
     +:+ "/ml/v1/text/generation_stream?version=" +:+ API_VERSION)
    (spread
       {[ "Authorization" := "Bearer " +:+ token;
          "Content-Type" := "application/json";
          "Accept" := "text/event-stream" ]}
       (caller_headers options))
    {| body_model_id := model_id model;
       body_input := prompt;
       body_project_id := projectId;
       body_parameters :=
         spread
           {[ "max_new_tokens" :=
                param_number
                  (default DEFAULT_MAX_TOKENS (options ≫= opt_maxTokens));
              "temperature" :=
                param_number
                  (default DEFAULT_TEMPERATURE (options ≫= opt_temperature)) ]}
           (default ∅ (options ≫= opt_parameters)) |}
    (options ≫= opt_signal).

(** The configuration of a call gives the credential [apiKey] and the
    project [projectId]. *)
Definition configured_with (options : option WatsonxStreamOptions) (w : World)
    (apiKey projectId : string) : Prop :=
  nullish (options ≫= opt_apiKey) (env_WATSONX_API_KEY w) = Some apiKey /\
  truthy apiKey = true /\
  nullish (options ≫= opt_projectId) (env_WATSONX_PROJECT_ID w)
  = Some projectId /\
  truthy projectId = true.

(** The headers object a request hands to [fetch]. *)
Definition request_headers (r : Request) : gmap string string :=
  match r with
  | IamTokenRequest _ _ _ _ =>
      {[ "Content-Type" := "application/x-www-form-urlencoded";
         "Accept" := "application/json" ]}
  | GenerationRequest _ headers _ _ => headers
  end.

(** The [Authorization] property of that object. *)
Definition authorization (r : Request) : option string :=
  request_headers r !! "Authorization".


Definition is_release (a : Action) : bool :=
  match a with
  | ReleaseLock => true
  | _ => false
  end.

(** What follows the release of the reader: [text_end], [done] or
    [error]. *)
Definition is_closing (a : Action) : bool :=
  match a with
  | Emit (ev_text_end _ _) | Emit (ev_done _) | Emit (ev_error _) => true
  | _ => false
  end.


(** *** The usage counters *)

(** The last count that is not zero among those the frames report in
    the field [field] of their first result, or zero when there is none. *)
Definition last_count (field : GenerationResult -> option number)
    (frames : list Payload) : number :=
  default 0%float
    (last (List.filter truthy_number
             (omap (fun parsed => first_result parsed ≫= field) frames))).


(* ===================================================================== *)
(** ** Concrete inputs *)
(* ===================================================================== *)

Definition granite : Model :=
  mkModel "ibm/granite-3-8b-instruct" "watsonx-generation" "watsonx" None
    (Some (mkModelCost 0.05 0.08 0 0)%float).

(** An identity endpoint that grants [token] for one hour. *)
Definition iam_grants (token : string) : FetchResult IamResponse :=
  Resolves (mkIamResponse true 200%N None
              (inr (mkIamTokenData token 3600%float))).

(** A generation endpoint that streams the given chunks to the end. *)
Definition generation_streams (chunks : list string) : FetchResult GenResponse :=
  Resolves (mkGenResponse true 200%N None (Some (mkBodyStream chunks None))).

(** A world with no environment variables, the clock at 1000 ms. *)
Definition world_of (iam : FetchResult IamResponse)
    (gen : FetchResult GenResponse) : World :=
  mkWorld None None 1000%float 1000%float 1000%float iam gen.

(** A [JSON.parse] that knows the frames of a table and rejects any
    other text. *)
Definition parse_table (table : list (string * Payload)) (data : string)
    : thrown + Payload :=
  match List.find (fun entry => String.eqb (fst entry) data) table with
  | Some entry => inr (snd entry)
  | None => inl (Error "Unexpected token in JSON")
  end.

(** A frame that carries only a cumulative text. *)
Definition text_frame (text : string) : Payload :=
  mkPayload (Some [mkResult (Some text) None None None]).

(** The state of a fresh process: an empty cache. *)
Definition fresh_state : State :=
  initial_state granite (world_of (iam_grants "") (generation_streams [])) ∅.

(** Two credentials that agree on their first 16 code units. *)
Definition first_key : string := "0123456789abcdef-first".

(** A process that holds a token for [first_key] until time 9000000. *)
Definition cached_state : State :=
  set_tokenCache
    (<["0123456789abcdef" := mkTokenCache "cached" 9000000%float]> ∅)
    fresh_state.

(** Options that give the credential and the project. *)
Definition configured : option WatsonxStreamOptions :=
  Some (mkOptions (Some first_key) (Some "project-1")
          None None None None None).

(** The same options with an [Authorization] header and a [temperature]
    parameter of the caller's own. *)
Definition own_authorization : option WatsonxStreamOptions :=
  Some (mkOptions (Some first_key) (Some "project-1") None None
          (Some {[ "temperature" := param_number 0%float ]})
          (Some {[ "Authorization" := "Basic caller" ]}) None).

Definition hello_context : Context :=
  mkContext None [mkMessage user (ContentString "Say hello.")].

(** Three frames with the cumulative texts "Hel", "Hello" and "Hello!";
    the last also reports the token counts. *)
Definition hello_table : list (string * Payload) :=
  [("frame-1", text_frame "Hel");
   ("frame-2", text_frame "Hello");
   ("frame-3",
    mkPayload (Some [mkResult (Some "Hello!") (Some 500000%float)
                       (Some 1000000%float) (Some "eos_token")]))].

(** The body of the response, cut into chunks in the middle of a line. *)
Definition hello_chunks : list string :=
  ["data: frame-1" +:+ nl +:+ "data: fra";
   "me-2" +:+ nl +:+ nl +:+ "data: frame-3" +:+ nl].

Definition hello_world : World :=
  world_of (iam_grants "bearer-1") (generation_streams hello_chunks).

(** A world whose identity endpoint cannot be reached. *)
Definition unreachable_iam_world : World :=
  world_of (Rejects (Error "fetch failed")) (generation_streams hello_chunks).

(** The run of the example: configured, a fresh process, the token
    granted and the three frames streamed. *)
Definition hello_run : State :=
  streamWatsonx (parse_table hello_table) granite hello_context configured
    hello_world ∅.

(** The same call when the identity endpoint cannot be reached. *)
Definition unreachable_run : State :=
  streamWatsonx (parse_table hello_table) granite hello_context configured
    unreachable_iam_world ∅.

(** A body whose second frame does not extend the first. *)
Definition rewind_table : list (string * Payload) :=
  [("frame-1", text_frame "abc"); ("frame-2", text_frame "xyzw")].

Definition rewind_world : World :=
  world_of (iam_grants "bearer-1")
    (generation_streams ["data: frame-1" +:+ nl +:+ "data: frame-2" +:+ nl]).

Definition rewind_run : State :=
  streamWatsonx (parse_table rewind_table) granite hello_context configured
    rewind_world ∅.

(** A state in which five code units of text have been seen and the
    counters hold 12 and 34. *)
Definition seen_hello : State :=
  set_output
    (with_usage (fun u => set_usage_output 34%float (set_usage_input 12%float u))
       (with_content (fun _ => [TextContent "Hello"]) (output fresh_state)))
    (set_startedText true (set_fullText "Hello" fresh_state)).

(** A result that repeats a shorter text and reports zero counts. *)
Definition zero_counts : GenerationResult :=
  mkResult (Some "Hel") (Some 0%float) (Some 0%float) None.

(** A conversation with a system prompt and three turns. *)
Definition multi_turn_context : Context :=
  mkContext (Some "Be brief.")
    [mkMessage user (ContentString "hi");
     mkMessage assistant
       (ContentBlocks [TextContent "a"; ThinkingContent "t"; TextContent "b"]);
     mkMessage user
       (ContentBlocks [ImageContent "d" "image/png"; TextContent "c"])].

(** *** Worlds for the credential cache *)

(** An identity endpoint that answers with a status that is not ok. *)
Definition iam_refuses (status : N) (text : option string)
    : FetchResult IamResponse :=
  Resolves (mkIamResponse false status text (inl (Error "Unexpected token"))).

(** A world whose clock reads [now] at every [Date.now()]. *)
Definition world_at (now : number) (iam : FetchResult IamResponse)
    (gen : FetchResult GenResponse) : World :=
  mkWorld None None now now now iam gen.


(** A conversation with a tool result between two turns. *)
Definition tool_context : Context :=
  mkContext (Some "   ")
    [mkMessage user (ContentString "2+2?");
     mkMessage toolResult (ContentBlocks [TextContent "4"]);
     mkMessage assistant (ContentBlocks [TextContent "4"])].


(** The body of the example with lines that carry no frame: an event
    line, a comment, a data line that does not parse and the sentinel. *)
Definition noisy_chunks : list string :=
  ["event: message" +:+ nl +:+ "data: frame-1" +:+ nl +:+ ": keep-alive" +:+ nl;
   "data: {not json" +:+ nl +:+ "data: frame-2" +:+ nl;
   "data: frame-3" +:+ nl +:+ "data: [DONE]" +:+ nl].

(** The body of the example in one chunk. *)
Definition hello_one_chunk : list string :=
  ["data: frame-1" +:+ nl +:+ "data: frame-2" +:+ nl +:+ nl
   +:+ "data: frame-3" +:+ nl].

(** A world that streams the first frame only. *)
Definition first_frame_world : World :=
  world_of (iam_grants "bearer-1")
    (generation_streams ["data: frame-1" +:+ nl]).


(** A world whose generation endpoint answers 503 with a body. *)
Definition overloaded_world : World :=
  world_of (iam_grants "bearer-1")
    (Resolves (mkGenResponse false 503%N (Some "try later") None)).

(** A world whose body breaks after the first chunk. *)
Definition broken_body_world : World :=
  world_of (iam_grants "bearer-1")
    (Resolves
       (mkGenResponse true 200%N None
          (Some (mkBodyStream ["data: frame-1" +:+ nl]
                   (Some (Error "terminated")))))).


(** A conversation that cannot be rendered. *)
Definition unrenderable_context : Context :=
  mkContext None [mkMessage assistant (ContentString "Got it.")].


(** A later world: the clock at 2000000 ms, an identity endpoint that
    would grant another token, the same body. *)
Definition later_world : World :=
  world_at 2000000%float (iam_grants "bearer-2") (generation_streams hello_chunks).


(* ===================================================================== *)
(** ** Strings *)
(* ===================================================================== *)

Lemma append_cons (c : ascii) (s t : string) :
  (String c s +:+ t)%string = String c (s +:+ t)%string.
Proof. reflexivity. Qed.

Lemma slice_from_0 (s : string) : slice_from s 0 = s.
Proof. now destruct s. Qed.

Lemma slice_0 (s : string) (n : nat) : slice s 0 n = take n s.
Proof. unfold slice. now rewrite Nat.sub_0_r, slice_from_0. Qed.

Lemma slice_from_short (s : string) (n : nat) :
  String.length s <= n -> slice_from s n = ""%string.
Proof.
  revert n. induction s as [|c s IH]; intros [|n] Hn; simpl in *;
    try reflexivity; try lia.
  apply IH. lia.
Qed.

Lemma slice_from_prefix (p s : string) :
  String.prefix p s = true -> (p +:+ slice_from s (String.length p))%string = s.
Proof.
  revert s. induction p as [|c p IH]; intros [|d s] Hp; simpl in *;
    try reflexivity; try discriminate.
  destruct (ascii_dec c d) as [->|]; [|discriminate].
  rewrite append_cons. f_equal. now apply IH.
Qed.

Lemma prefix_empty (p : string) : String.prefix p ""%string = true -> p = ""%string.
Proof. destruct p; simpl; [reflexivity|discriminate]. Qed.

Lemma truthy_false (s : string) : truthy s = false -> s = ""%string.
Proof. destruct s; [reflexivity|discriminate]. Qed.

Lemma append_empty_r (s : string) : (s +:+ "")%string = s.
Proof.
  induction s as [|c s IH]; [reflexivity|].
  rewrite append_cons. now rewrite IH.
Qed.

(* ===================================================================== *)
(** ** One frame *)
(* ===================================================================== *)

Lemma bind_normal {A B : Type} (m : M A) (k : A -> M B) (s s' : State) (a : A) :
  m s = (Normal a, s') -> bind m k s = k a s'.
Proof. intros H. unfold bind. now rewrite H. Qed.

Lemma bind_throw {A B : Type} (m : M A) (k : A -> M B) (s s' : State)
    (e : thrown) :
  m s = (Throw e, s') -> bind m k s = (Throw e, s').
Proof. intros H. unfold bind. now rewrite H. Qed.

(** Unfolds the monad and the primitive effects. *)
Ltac run :=
  unfold process_payload, on_generated_text, on_input_token_count,
    on_generated_token_count, assign_text, push, modify_output, fetch,
    try_catch, try_finally, bind, ret, throw, get, modify in *;
  simpl in *.

Lemma on_generated_text_usage (result : option GenerationResult) (s : State) :
  out_usage (output (snd (on_generated_text result s))) = out_usage (output s).
Proof. run. repeat (case_match; simplify_eq/=); reflexivity. Qed.

Lemma on_input_token_count_normal (result : option GenerationResult) (s : State) :
  fst (on_input_token_count result s) = Normal tt /\
  trace (snd (on_input_token_count result s)) = trace s /\
  fullText (snd (on_input_token_count result s)) = fullText s /\
  startedText (snd (on_input_token_count result s)) = startedText s /\
  tokenCache (snd (on_input_token_count result s)) = tokenCache s /\
  buffer (snd (on_input_token_count result s)) = buffer s /\
  out_content (output (snd (on_input_token_count result s)))
    = out_content (output s).
Proof. run. repeat (case_match; simplify_eq/=); auto 10. Qed.

Lemma on_generated_token_count_normal
    (result : option GenerationResult) (s : State) :
  fst (on_generated_token_count result s) = Normal tt /\
  trace (snd (on_generated_token_count result s)) = trace s /\
  fullText (snd (on_generated_token_count result s)) = fullText s /\
  startedText (snd (on_generated_token_count result s)) = startedText s /\
  tokenCache (snd (on_generated_token_count result s)) = tokenCache s /\
  buffer (snd (on_generated_token_count result s)) = buffer s /\
  out_content (output (snd (on_generated_token_count result s)))
    = out_content (output s).
Proof. run. repeat (case_match; simplify_eq/=); auto 10. Qed.

(** C7: a frame whose [generated_text] is no longer than the text seen so
    far is processed without an exception, emits nothing (so no
    [text_delta]) and leaves the cumulative text as it was: [slice] past
    the end of a string is the empty string, which is falsy. *)
Theorem shorter_text_emits_no_delta
    (parsed : Payload) (text : string) (s : State) :
  frame_text parsed = Some text ->
  String.length text <= String.length (fullText s) ->
  slice_from text (String.length (fullText s)) = ""%string /\
  fst (process_payload parsed s) = Normal tt /\
  trace (snd (process_payload parsed s)) = trace s /\
  fullText (snd (process_payload parsed s)) = fullText s /\
  out_content (output (snd (process_payload parsed s)))
    = out_content (output s).
Proof.
  intros Htext Hlen. unfold frame_text in Htext.
  pose proof (slice_from_short _ _ Hlen) as Hslice.
  split; [exact Hslice|].
  assert (Hstep : on_generated_text (first_result parsed) s = (Normal tt, s)).
  { unfold on_generated_text. rewrite Htext.
    destruct (truthy text); [|reflexivity].
    unfold bind, get, ret. simpl. rewrite Hslice. reflexivity. }
  pose proof (on_input_token_count_normal (first_result parsed) s)
    as (Hi & Hti & Hfi & _ & _ & _ & Hci).
  destruct (on_input_token_count (first_result parsed) s) as [ci si] eqn:Ei.
  simpl in *. subst ci.
  pose proof (on_generated_token_count_normal (first_result parsed) si)
    as (Ho & Hto & Hfo & _ & _ & _ & Hco).
  destruct (on_generated_token_count (first_result parsed) si) as [co so] eqn:Eo.
  simpl in *. subst co.
  assert (Hrun : process_payload parsed s = (Normal tt, so)).
  { unfold process_payload.
    rewrite (bind_normal _ _ _ _ _ Hstep), (bind_normal _ _ _ _ _ Ei).
    exact Eo. }
  rewrite Hrun. simpl. repeat split; congruence.
Qed.

Lemma falsy_zero (n : number) :
  PrimFloat.eqb n 0%float = true -> truthy_number n = false.
Proof. intros H. unfold truthy_number. now rewrite H. Qed.

Lemma on_generated_token_count_usage_input
    (result : option GenerationResult) (s : State) :
  usage_input (out_usage (output (snd (on_generated_token_count result s))))
  = usage_input (out_usage (output s)).
Proof. run. repeat (case_match; simplify_eq/=); reflexivity. Qed.

Lemma on_input_token_count_usage_output
    (result : option GenerationResult) (s : State) :
  usage_output (out_usage (output (snd (on_input_token_count result s))))
  = usage_output (out_usage (output s)).
Proof. run. repeat (case_match; simplify_eq/=); reflexivity. Qed.

Lemma on_input_token_count_falsy (r : GenerationResult) (n : number) (s : State) :
  input_token_count r = Some n -> truthy_number n = false ->
  on_input_token_count (Some r) s = (Normal tt, s).
Proof.
  intros Hn Hf. unfold on_input_token_count. simpl. now rewrite Hn, Hf.
Qed.

Lemma on_generated_token_count_falsy
    (r : GenerationResult) (n : number) (s : State) :
  generated_token_count r = Some n -> truthy_number n = false ->
  on_generated_token_count (Some r) s = (Normal tt, s).
Proof.
  intros Hn Hf. unfold on_generated_token_count. simpl. now rewrite Hn, Hf.
Qed.

(** The state after a frame, whatever its completion. *)
Lemma process_payload_step (parsed : Payload) (s : State) :
  process_payload parsed s =
  match on_generated_text (first_result parsed) s with
  | (Normal _, s1) =>
      match on_input_token_count (first_result parsed) s1 with
      | (Normal _, s2) => on_generated_token_count (first_result parsed) s2
      | (Throw e, s2) => (Throw e, s2)
      end
  | (Throw e, s1) => (Throw e, s1)
  end.
Proof. reflexivity. Qed.

(** C10: a frame that reports [input_token_count] (or
    [generated_token_count]) equal to zero is processed exactly as the same
    frame with the field absent, and the corresponding counter of
    [output.usage] keeps the value it had. *)
Theorem zero_token_count_is_ignored
    (r : GenerationResult) (rs : list GenerationResult) (n : number)
    (s : State) :
  PrimFloat.eqb n 0%float = true ->
  (input_token_count r = Some n ->
   process_payload (mkPayload (Some (r :: rs))) s
   = process_payload (mkPayload (Some (without_input_token_count r :: rs))) s
   /\ usage_input
        (out_usage (output (snd (process_payload (mkPayload (Some (r :: rs))) s))))
      = usage_input (out_usage (output s)))
  /\
  (generated_token_count r = Some n ->
   process_payload (mkPayload (Some (r :: rs))) s
   = process_payload
       (mkPayload (Some (without_generated_token_count r :: rs))) s
   /\ usage_output
        (out_usage (output (snd (process_payload (mkPayload (Some (r :: rs))) s))))
      = usage_output (out_usage (output s))).
Proof.
  intros Hzero. apply falsy_zero in Hzero.
  split; intros Hn; rewrite !process_payload_step;
    unfold first_result; simpl.
  - change (on_generated_text (Some (without_input_token_count r)))
      with (on_generated_text (Some r)).
    change (on_generated_token_count (Some (without_input_token_count r)))
      with (on_generated_token_count (Some r)).
    pose proof (on_generated_text_usage (Some r) s) as Hu.
    destruct (on_generated_text (Some r) s) as [[[]|e] s1]; simpl in Hu.
    + rewrite (on_input_token_count_falsy r n s1 Hn Hzero).
      split; [reflexivity|].
      rewrite on_generated_token_count_usage_input. now rewrite Hu.
    + split; [reflexivity|]. simpl. now rewrite Hu.
  - change (on_generated_text (Some (without_generated_token_count r)))
      with (on_generated_text (Some r)).
    change (on_input_token_count (Some (without_generated_token_count r)))
      with (on_input_token_count (Some r)).
    pose proof (on_generated_text_usage (Some r) s) as Hu.
    destruct (on_generated_text (Some r) s) as [[[]|e] s1]; simpl in Hu.
    + pose proof (on_input_token_count_usage_output (Some r) s1) as Hi.
      pose proof (on_input_token_count_normal (Some r) s1) as (Hc & _).
      destruct (on_input_token_count (Some r) s1) as [ci s2].
      simpl in Hi, Hc. subst ci.
      rewrite (on_generated_token_count_falsy r n s2 Hn Hzero).
      split; [reflexivity|]. simpl. now rewrite Hi, Hu.
    + split; [reflexivity|]. simpl. now rewrite Hu.
Qed.

(* ===================================================================== *)
(** ** The prompt builder *)
(* ===================================================================== *)

Lemma text_of_blocks_message_text (blocks : list ContentBlock) :
  text_of_blocks blocks = message_text (ContentBlocks blocks).
Proof.
  unfold text_of_blocks, message_text. f_equal.
  induction blocks as [|b blocks IH]; [reflexivity|].
  destruct b; simpl; rewrite ?IH; reflexivity.
Qed.

Lemma render_messages_well_typed (msgs : list Message) (parts : list string) :
  Forall well_typed msgs ->
  render_messages msgs parts = inr (parts ++ map segment msgs)%list.
Proof.
  revert parts. induction msgs as [|msg msgs IH]; intros parts Hwt.
  - simpl. now rewrite app_nil_r.
  - inversion Hwt as [|? ? Hmsg Hrest]; subst.
    simpl. destruct Hmsg as [Hu | [Ha [blocks Hb]]].
    + rewrite Hu. rewrite IH by assumption.
      rewrite <- app_assoc. simpl. do 3 f_equal.
      unfold segment. rewrite Hu. simpl.
      destruct (content msg); [reflexivity|].
      now rewrite text_of_blocks_message_text.
    + rewrite Ha, Hb. rewrite IH by assumption.
      rewrite <- app_assoc. simpl. do 3 f_equal.
      unfold segment. rewrite Ha, Hb. simpl role_marker.
      now rewrite text_of_blocks_message_text.
Qed.

(** C4 (as the code has it): when every message is a user turn (plain
    string or blocks) or an assistant turn whose content is a list of
    blocks, [buildWatsonxPrompt] returns the system segment (if any), then
    one segment per message in the original order, each the text of the
    message between the markers of its role, then the priming marker, all
    joined by newlines. *)
Theorem prompt_of_well_typed_messages (context : Context) :
  Forall well_typed (messages context) ->
  buildWatsonxPrompt context =
  inr (join nl (system_segment context ++ map segment (messages context)
                ++ ["<|assistant|>" +:+ nl])%list).
Proof.
  intros Hwt. unfold buildWatsonxPrompt.
  fold (system_segment context).
  rewrite render_messages_well_typed by assumption.
  now rewrite <- app_assoc.
Qed.

Lemma prompt_of_well_typed_messages_witness :
  Forall well_typed (messages multi_turn_context) /\
  buildWatsonxPrompt multi_turn_context =
  inr (join nl (system_segment multi_turn_context
                ++ map segment (messages multi_turn_context)
                ++ ["<|assistant|>" +:+ nl])%list).
Proof.
  assert (H : Forall well_typed (messages multi_turn_context)).
  { unfold multi_turn_context. simpl.
    constructor; [left; reflexivity|].
    constructor; [right; split; [reflexivity|eexists; reflexivity]|].
    constructor; [left; reflexivity|].
    constructor. }
  split; [exact H|].
  exact (prompt_of_well_typed_messages multi_turn_context H).
Defined.

Example multi_turn_prompt :
  buildWatsonxPrompt multi_turn_context
  = inr ("<|system|>" +:+ nl +:+ "Be brief." +:+ nl +:+ "<|end|>" +:+ nl +:+
         "<|user|>" +:+ nl +:+ "hi" +:+ nl +:+ "<|end|>" +:+ nl +:+
         "<|assistant|>" +:+ nl +:+ "a" +:+ nl +:+ "b" +:+ nl +:+ "<|end|>" +:+ nl +:+
         "<|user|>" +:+ nl +:+ "c" +:+ nl +:+ "<|end|>" +:+ nl +:+
         "<|assistant|>" +:+ nl).
Proof. vm_compute. reflexivity. Qed.

(** C4, as stated, fails: an assistant turn whose content is a plain
    string makes [buildWatsonxPrompt] throw, since the assistant branch
    filters the content without testing whether it is a string. *)
Lemma prompt_of_assistant_string_throws :
  buildWatsonxPrompt
    (mkContext None [mkMessage assistant (ContentString "Got it.")])
  = inl (Error "msg.content.filter is not a function").
Proof. reflexivity. Qed.

(* ===================================================================== *)
(** ** The credential cache *)
(* ===================================================================== *)

(** The exchange path of [getIamToken], spelled out. *)
Lemma getIamToken_exchange (w : World) (apiKey : string)
    (signal : option AbortSignal) (s : State) :
  (tokenCache s !! slice apiKey 0 16 = None \/
   exists c, tokenCache s !! slice apiKey 0 16 = Some c /\
     PrimFloat.ltb (now_lookup w + 300000)%float (expiresAt c) = false) ->
  getIamToken w apiKey signal s =
  match iam_endpoint w with
  | Rejects e => (Throw e, log (iam_request apiKey signal) s)
  | Resolves response =>
      if negb (iam_ok response) then
        (Throw (Error ("IBM IAM token exchange failed: " +:+
                       pretty (iam_status response) +:+ " - " +:+
                       default "Unknown error" (iam_text response))),
         log (iam_request apiKey signal) s)
      else
        match iam_json response with
        | inl e => (Throw e, log (iam_request apiKey signal) s)
        | inr data =>
            (Normal (access_token data),
             set_tokenCache
               (<[slice apiKey 0 16 :=
                    mkTokenCache (access_token data)
                      (now_store w + expires_in data * 1000)%float]>
                  (tokenCache s))
               (log (iam_request apiKey signal) s))
        end
  end.
Proof.
  intros Hmiss. unfold getIamToken, iam_request. run.
  destruct Hmiss as [-> | (c & -> & ->)];
    destruct (iam_endpoint w) as [e|response]; simpl; try reflexivity;
    destruct (iam_ok response); simpl; try reflexivity;
    destruct (iam_json response); reflexivity.
Qed.

(** C6: [getIamToken] returns the cached token, with no request and no
    change of state, when the entry under the key of the credential expires
    more than 300000 ms after the current time. Otherwise (no entry, or an
    entry within five minutes of its expiry) it makes exactly one request,
    to the identity endpoint; when that exchange succeeds it stores the new
    token with [expiresAt = now + expires_in * 1000] under the key and
    returns the new token. *)
Theorem cached_token_reused_or_one_exchange (w : World) (apiKey : string)
    (signal : option AbortSignal) (s : State) :
  (forall c,
     tokenCache s !! slice apiKey 0 16 = Some c ->
     PrimFloat.ltb (now_lookup w + 300000)%float (expiresAt c) = true ->
     getIamToken w apiKey signal s = (Normal (token c), s))
  /\
  ((tokenCache s !! slice apiKey 0 16 = None \/
    exists c, tokenCache s !! slice apiKey 0 16 = Some c /\
      PrimFloat.ltb (now_lookup w + 300000)%float (expiresAt c) = false) ->
   trace (snd (getIamToken w apiKey signal s))
   = (trace s ++ [iam_request apiKey signal])%list
   /\
   forall response data,
     iam_endpoint w = Resolves response ->
     iam_ok response = true ->
     iam_json response = inr data ->
     fst (getIamToken w apiKey signal s) = Normal (access_token data) /\
     tokenCache (snd (getIamToken w apiKey signal s))
     = <[slice apiKey 0 16 :=
           mkTokenCache (access_token data)
             (now_store w + expires_in data * 1000)%float]> (tokenCache s)).
Proof.
  split.
  - intros c Hc Hfresh. unfold getIamToken. run. now rewrite Hc, Hfresh.
  - intros Hmiss. rewrite (getIamToken_exchange w apiKey signal s Hmiss).
    split.
    + destruct (iam_endpoint w) as [e|response]; [reflexivity|].
      destruct (iam_ok response); simpl; [|reflexivity].
      destruct (iam_json response); reflexivity.
    + intros response data -> Hok Hjson. rewrite Hok, Hjson. simpl. auto.
Qed.

Lemma cached_token_reused_or_one_exchange_witness :
  getIamToken (world_of (iam_grants "granted") (generation_streams []))
    first_key None cached_state
  = (Normal "cached", cached_state)
  /\
  (fst (getIamToken (world_of (iam_grants "granted") (generation_streams []))
          first_key None fresh_state)
   = Normal "granted"
   /\
   tokenCache
     (snd (getIamToken (world_of (iam_grants "granted") (generation_streams []))
             first_key None fresh_state))
   = <["0123456789abcdef" := mkTokenCache "granted" 3601000%float]> ∅).
Proof.
  split.
  - apply (cached_token_reused_or_one_exchange
             (world_of (iam_grants "granted") (generation_streams []))
             first_key None cached_state)
      with (c := mkTokenCache "cached" 9000000%float).
    + vm_compute. reflexivity.
    + vm_compute. reflexivity.
  - apply (cached_token_reused_or_one_exchange
             (world_of (iam_grants "granted") (generation_streams []))
             first_key None fresh_state)
      with (response := mkIamResponse true 200%N None
                          (inr (mkIamTokenData "granted" 3600%float)))
           (data := mkIamTokenData "granted" 3600%float).
    + left. vm_compute. reflexivity.
    + reflexivity.
    + reflexivity.
    + reflexivity.
Defined.

(** What [getIamToken] does to the cache: nothing, or one entry written
    under the key of the credential. *)
Lemma getIamToken_cache (w : World) (apiKey : string)
    (signal : option AbortSignal) (s : State) :
  tokenCache (snd (getIamToken w apiKey signal s)) = tokenCache s \/
  exists c,
    tokenCache (snd (getIamToken w apiKey signal s))
    = <[slice apiKey 0 16 := c]> (tokenCache s).
Proof.
  unfold getIamToken. run.
  repeat (case_match; simplify_eq/=); eauto.
Qed.





(* ===================================================================== *)
(** ** The stream: configuration *)
(* ===================================================================== *)

Section StreamProperties.

Variable JSON_parse : string -> thrown + Payload.

Lemma required_cases (v : option string) (message : string) (s : State) :
  (exists x, v = Some x /\ truthy x = true /\
             required v message s = (Normal x, s)) \/
  required v message s = (Throw (Error message), s).
Proof.
  unfold required. destruct v as [x|]; [|now right].
  destruct (truthy x) eqn:Hx; [left; eauto | now right].
Qed.

Lemma open_stream_missing (model : Model) (context : Context)
    (options : option WatsonxStreamOptions) (w : World) (s : State) :
  (options ≫= opt_apiKey = None /\ env_WATSONX_API_KEY w = None) \/
  (options ≫= opt_projectId = None /\ env_WATSONX_PROJECT_ID w = None) ->
  open_stream model context options w s
  = (Throw (Error missing_apiKey_message), s) \/
  open_stream model context options w s
  = (Throw (Error missing_projectId_message), s).
Proof.
  intros Hmissing. unfold open_stream.
  destruct (required_cases
              (nullish (options ≫= opt_apiKey) (env_WATSONX_API_KEY w))
              missing_apiKey_message s) as [(k & Hk & _ & Hrun) | Hrun];
    [|left; now rewrite (bind_throw _ _ _ _ _ Hrun)].
  fold missing_apiKey_message. rewrite (bind_normal _ _ _ _ _ Hrun).
  destruct Hmissing as [[Ho He] | [Ho He]].
  - rewrite Ho, He in Hk. discriminate.
  - right. rewrite Ho, He. reflexivity.
Qed.

(** C8: when the credential is missing (neither the [apiKey] option nor
    [WATSONX_API_KEY]) or the project identifier is missing (neither the
    [projectId] option nor [WATSONX_PROJECT_ID]), the whole run consists of
    one action, the terminal [error] event: no request is made to either
    endpoint, the cache is untouched, and [output] carries the stop reason
    [error] and the message of the missing setting. *)
Theorem missing_configuration_fails_fast (model : Model) (context : Context)
    (options : option WatsonxStreamOptions) (w : World)
    (cache : gmap string TokenCache) :
  (options ≫= opt_apiKey = None /\ env_WATSONX_API_KEY w = None) \/
  (options ≫= opt_projectId = None /\ env_WATSONX_PROJECT_ID w = None) ->
  trace (streamWatsonx JSON_parse model context options w cache)
  = [Emit (ev_error error)] /\
  requests (streamWatsonx JSON_parse model context options w cache) = [] /\
  tokenCache (streamWatsonx JSON_parse model context options w cache) = cache /\
  out_stopReason (output (streamWatsonx JSON_parse model context options w cache))
  = error /\
  (out_errorMessage (output (streamWatsonx JSON_parse model context options w cache))
   = Some missing_apiKey_message \/
   out_errorMessage (output (streamWatsonx JSON_parse model context options w cache))
   = Some missing_projectId_message).
Proof.
  intros Hmissing. unfold streamWatsonx, try_catch, stream_try.
  destruct (open_stream_missing model context options w
              (initial_state model w cache) Hmissing) as [Hrun | Hrun];
    rewrite (bind_throw _ _ _ _ _ Hrun); simpl; auto 10.
Qed.

(* ===================================================================== *)
(** ** The stream: the read loop *)
(* ===================================================================== *)

Lemma extends_refl (P : Action -> bool) (s : State) : extends P s s.
Proof. exists []. split; [now rewrite app_nil_r|reflexivity]. Qed.

Lemma extends_trans (P : Action -> bool) (s1 s2 s3 : State) :
  extends P s1 s2 -> extends P s2 s3 -> extends P s1 s3.
Proof.
  intros (t1 & H1 & P1) (t2 & H2 & P2). exists (t1 ++ t2)%list. split.
  - rewrite H2, H1. now rewrite app_assoc.
  - rewrite forallb_app. now rewrite P1, P2.
Qed.

Lemma extends_same_trace (P : Action -> bool) (s s' : State) :
  trace s' = trace s -> extends P s s'.
Proof.
  intros H. exists []. split; [now rewrite app_nil_r|reflexivity].
Qed.

(** Closes a goal [extends P s s'] where [s'] is [s] after explicit
    steps. *)
Ltac solve_extends :=
  first
    [ apply extends_same_trace; reflexivity
    | unfold extends; simpl; rewrite <- ?app_assoc; simpl;
      eexists; split; [reflexivity|reflexivity] ].

Lemma on_generated_text_extends (result : option GenerationResult) (s : State) :
  extends body_action s (snd (on_generated_text result s)).
Proof.
  run. repeat (case_match; simplify_eq/=); solve_extends.
Qed.

Lemma process_payload_extends (parsed : Payload) (s : State) :
  extends body_action s (snd (process_payload parsed s)).
Proof.
  rewrite process_payload_step.
  pose proof (on_generated_text_extends (first_result parsed) s) as H1.
  destruct (on_generated_text (first_result parsed) s) as [[[]|e] s1];
    simpl in H1; [|exact H1].
  pose proof (on_input_token_count_normal (first_result parsed) s1)
    as (Hc & Ht & _).
  destruct (on_input_token_count (first_result parsed) s1) as [c2 s2].
  simpl in Hc, Ht. subst c2.
  pose proof (on_generated_token_count_normal (first_result parsed) s2)
    as (_ & Ht3 & _).
  eapply extends_trans; [exact H1|].
  apply extends_same_trace. congruence.
Qed.

(** A line never throws: the inner [catch] swallows what the payload
    throws, and leaves the state as the throw found it. *)
Lemma process_line_cases (line : string) (s : State) :
  process_line JSON_parse line s =
  match frame_of_line JSON_parse line with
  | Some parsed => (Normal tt, snd (process_payload parsed s))
  | None => (Normal tt, s)
  end.
Proof.
  unfold process_line, frame_of_line.
  destruct (negb (startsWith line "data:")); [reflexivity|].
  destruct (String.eqb (trim (slice_from line 5)) "[DONE]"); [reflexivity|].
  unfold try_catch.
  destruct (JSON_parse (trim (slice_from line 5))) as [e|parsed];
    [reflexivity|].
  destruct (process_payload parsed s) as [[[]|e] s']; reflexivity.
Qed.

Lemma process_line_extends (line : string) (s : State) :
  extends body_action s (snd (process_line JSON_parse line s)).
Proof.
  rewrite process_line_cases.
  destruct (frame_of_line JSON_parse line); simpl.
  - apply process_payload_extends.
  - apply extends_refl.
Qed.

Lemma for_of_lines_extends (lines : list string) (s : State) :
  fst (for_of lines (process_line JSON_parse) s) = Normal tt /\
  extends body_action s (snd (for_of lines (process_line JSON_parse) s)).
Proof.
  revert s. induction lines as [|line lines IH]; intros s; simpl.
  - split; [reflexivity|apply extends_refl].
  - unfold bind. pose proof (process_line_extends line s) as Hline.
    rewrite process_line_cases in *.
    destruct (frame_of_line JSON_parse line) as [parsed|]; simpl in *.
    + destruct (IH (snd (process_payload parsed s))) as [Hc Hext].
      split; [exact Hc|]. eapply extends_trans; eassumption.
    + apply IH.
Qed.

(** One turn of the [while] loop. *)
Lemma read_loop_cons (value : string) (rest : list string)
    (failure : option thrown) (s : State) :
  read_loop JSON_parse (value :: rest) failure s =
  read_loop JSON_parse rest failure
    (snd (for_of (removelast (split_nl (buffer s +:+ value)))
            (process_line JSON_parse)
            (set_buffer (default ""%string (last (split_nl (buffer s +:+ value))))
               (set_buffer (buffer s +:+ value) s)))).
Proof.
  simpl. unfold bind, modify, get, pop. simpl.
  match goal with
  | |- context [for_of ?l ?f ?st] =>
      pose proof (for_of_lines_extends l st) as [Hc _];
      destruct (for_of l f st) as [c s']
  end.
  simpl in Hc. subst c. reflexivity.
Qed.

Lemma read_loop_extends (chunks : list string) (failure : option thrown)
    (s : State) :
  extends body_action s (snd (read_loop JSON_parse chunks failure s)) /\
  fst (read_loop JSON_parse chunks failure s)
  = match failure with
    | Some e => Throw e
    | None => Normal tt
    end.
Proof.
  revert s. induction chunks as [|value rest IH]; intros s.
  - simpl. destruct failure; simpl; split;
      try reflexivity; apply extends_refl.
  - rewrite read_loop_cons.
    match goal with
    | |- context [for_of ?l ?f ?st] =>
        pose proof (for_of_lines_extends l st) as [_ Hext];
        destruct (IH (snd (for_of l f st))) as [Hrest Hc]
    end.
    split; [|exact Hc].
    eapply extends_trans; [|exact Hrest].
    eapply extends_trans; [|exact Hext].
    apply extends_same_trace. reflexivity.
Qed.

(* ===================================================================== *)
(** ** The stream: the shape of a run *)
(* ===================================================================== *)

(** Before the body is read, only requests are made, and [output] is
    not touched; when the body is handed over, the generation endpoint has
    answered with an ok status and this body, and its request is the last
    action. *)
Lemma open_stream_spec (model : Model) (context : Context)
    (options : option WatsonxStreamOptions) (w : World) (s : State) :
  extends is_fetch s (snd (open_stream model context options w s)) /\
  output (snd (open_stream model context options w s)) = output s /\
  forall body,
    fst (open_stream model context options w s) = Normal body ->
    (exists response,
       generation_endpoint w = Resolves response /\
       gen_ok response = true /\ gen_body response = Some body) /\
    (exists pre request,
       trace (snd (open_stream model context options w s))
       = (trace s ++ pre ++ [request])%list /\
       forallb is_fetch pre = true /\
       is_generation_request request = true).
Proof.
  unfold open_stream, required, getIamToken. run.
  repeat (case_match; simplify_eq/=);
    (split; [solve_extends|]); (split; [reflexivity|]);
    intros body' Hbody; simplify_eq/=.
  all: split; [eexists; split;
                 [first [eassumption|reflexivity]
                 |split; [|first [eassumption|reflexivity]]];
               match goal with
               | H : negb ?b = false |- ?b = true =>
                   now destruct b
               end|].
  all: rewrite <- ?app_assoc; simpl.
  all: first [ exists []; eexists; simpl;
               split; [reflexivity|split; reflexivity]
             | eexists (cons _ nil); eexists; simpl;
               split; [reflexivity|split; reflexivity] ].
Qed.


Lemma consume_stream_cases (model : Model) (body : BodyStream) (s : State) :
  consume_stream JSON_parse model body s =
  match body_failure body with
  | Some e =>
      (Throw e,
       log ReleaseLock
         (snd (read_loop JSON_parse (body_chunks body) (body_failure body)
                 (loop_start s))))
  | None =>
      (Normal tt,
       completed model
         (snd (read_loop JSON_parse (body_chunks body) (body_failure body)
                 (loop_start s))))
  end.
Proof.
  unfold consume_stream, completed. run. fold (loop_start s).
  destruct (read_loop_extends (body_chunks body) (body_failure body)
              (loop_start s)) as [_ Hc].
  destruct (read_loop JSON_parse (body_chunks body) (body_failure body)
              (loop_start s)) as [c s2].
  simpl in *. subst c.
  destruct (body_failure body); simpl; [reflexivity|].
  destruct (startedText s2); reflexivity.
Qed.

(** The three ways a run ends. *)
Lemma streamWatsonx_cases (model : Model) (context : Context)
    (options : option WatsonxStreamOptions) (w : World)
    (cache : gmap string TokenCache) :
  streamWatsonx JSON_parse model context options w cache =
  match open_stream model context options w (initial_state model w cache) with
  | (Throw e, s1) => caught e s1
  | (Normal body, s1) =>
      match body_failure body with
      | Some e =>
          caught e
            (log ReleaseLock
               (snd (read_loop JSON_parse (body_chunks body)
                       (body_failure body) (loop_start s1))))
      | None =>
          completed model
            (snd (read_loop JSON_parse (body_chunks body)
                    (body_failure body) (loop_start s1)))
      end
  end.
Proof.
  unfold streamWatsonx, try_catch, stream_try, bind.
  destruct (open_stream model context options w (initial_state model w cache))
    as [[body|e] s1]; [|reflexivity].
  rewrite consume_stream_cases.
  destruct (body_failure body); reflexivity.
Qed.

Lemma trace_events_app (t1 t2 : list Action) :
  trace_events (t1 ++ t2) = (trace_events t1 ++ trace_events t2)%list.
Proof. apply omap_app. Qed.

Lemma trace_events_fetches (t : list Action) :
  forallb is_fetch t = true -> trace_events t = [].
Proof.
  induction t as [|a t IH]; [reflexivity|].
  simpl. destruct a; simpl; try discriminate. exact IH.
Qed.

Lemma trace_events_body (t : list Action) :
  forallb body_action t = true ->
  forallb body_event (trace_events t) = true.
Proof.
  induction t as [|a t IH]; [reflexivity|].
  simpl. destruct a as [r|e|]; simpl; try discriminate.
  destruct e; simpl; try discriminate; exact IH.
Qed.

Lemma events_extends_fetch (s s' : State) :
  extends is_fetch s s' -> events s' = events s.
Proof.
  intros (t & Ht & Hp). unfold events. rewrite Ht, trace_events_app.
  rewrite (trace_events_fetches t Hp). apply app_nil_r.
Qed.

Lemma events_extends_body (s s' : State) :
  extends body_action s s' ->
  exists es, events s' = (events s ++ es)%list /\ forallb body_event es = true.
Proof.
  intros (t & Ht & Hp). exists (trace_events t). split.
  - unfold events. now rewrite Ht, trace_events_app.
  - now apply trace_events_body.
Qed.

Lemma events_log_emit (e : AssistantMessageEvent) (s : State) :
  events (log (Emit e) s) = (events s ++ [e])%list.
Proof. unfold events. simpl. now rewrite trace_events_app. Qed.

Lemma events_log_release (s : State) : events (log ReleaseLock s) = events s.
Proof.
  unfold events. simpl. rewrite trace_events_app. simpl. apply app_nil_r.
Qed.

Lemma events_initial (model : Model) (w : World)
    (cache : gmap string TokenCache) :
  events (initial_state model w cache) = [].
Proof. reflexivity. Qed.

(** The events of the read loop of a run: those between [start] and
    what follows the loop. *)
Lemma events_read_loop (chunks : list string) (failure : option thrown)
    (s : State) :
  events s = [] ->
  exists es,
    events (snd (read_loop JSON_parse chunks failure (loop_start s)))
    = (ev_start :: es)%list /\
    forallb body_event es = true.
Proof.
  intros Hs.
  destruct (read_loop_extends chunks failure (loop_start s)) as [Hext _].
  apply events_extends_body in Hext as (es & Hes & Hbody).
  exists es. split; [|exact Hbody].
  rewrite Hes. unfold loop_start, events. simpl.
  rewrite trace_events_app. fold (events s). now rewrite Hs.
Qed.

Lemma body_events_not_terminal (es : list AssistantMessageEvent) :
  forallb body_event es = true ->
  forallb (fun e => negb (is_terminal e)) es = true.
Proof.
  induction es as [|e es IH]; [reflexivity|].
  simpl. destruct e; simpl; try discriminate; exact IH.
Qed.

Lemma events_caught (e : thrown) (s : State) :
  events (caught e s) = (events s ++ [ev_error error])%list.
Proof. unfold caught, events. simpl. now rewrite trace_events_app. Qed.

Lemma events_completed (model : Model) (s : State) :
  events (completed model s)
  = (events s
     ++ (if startedText s then [ev_text_end contentIndex (fullText s)] else [])
     ++ [ev_done stop])%list.
Proof.
  unfold completed, events.
  destruct (startedText s); simpl; rewrite !trace_events_app; simpl;
    rewrite ?app_nil_r, <- ?app_assoc; reflexivity.
Qed.

(** C2: the events of every run are some events that are not terminal,
    followed by exactly one terminal event ([done] or [error]), which is
    the last. *)
Theorem exactly_one_terminal_event_last (model : Model) (context : Context)
    (options : option WatsonxStreamOptions) (w : World)
    (cache : gmap string TokenCache) :
  exists es t,
    events (streamWatsonx JSON_parse model context options w cache)
    = (es ++ [t])%list /\
    (t = ev_done stop \/ t = ev_error error) /\
    forallb (fun e => negb (is_terminal e)) es = true.
Proof.
  rewrite streamWatsonx_cases.
  destruct (open_stream_spec model context options w
              (initial_state model w cache)) as (Hext & _ & _).
  apply events_extends_fetch in Hext. rewrite events_initial in Hext.
  destruct (open_stream model context options w (initial_state model w cache))
    as [[body|e] s1]; simpl in Hext.
  - destruct (events_read_loop (body_chunks body) (body_failure body) s1 Hext)
      as (es & Hes & Hbody).
    apply body_events_not_terminal in Hbody.
    destruct (body_failure body) as [e|].
    + exists (ev_start :: es), (ev_error error).
      rewrite events_caught, events_log_release, Hes. auto.
    + rewrite events_completed, Hes.
      eexists (ev_start :: es ++ _)%list, (ev_done stop).
      split; [simpl; now rewrite <- app_assoc|].
      split; [auto|]. simpl. rewrite forallb_app, Hbody.
      now destruct (startedText _).
  - exists [], (ev_error error). rewrite events_caught, Hext. auto.
Qed.


(* ===================================================================== *)
(** ** The stream: usage and cost *)
(* ===================================================================== *)

Lemma output_completed (model : Model) (s : State) :
  output (completed model s) = with_usage (final_usage model) (output s).
Proof. unfold completed. destruct (startedText s); reflexivity. Qed.

Lemma body_events_no_done (es : list AssistantMessageEvent) :
  forallb body_event es = true -> ~ In (ev_done stop) es.
Proof.
  intros Hbody Hin. rewrite forallb_forall in Hbody.
  specialize (Hbody _ Hin). discriminate.
Qed.

(** A run that emits [done] went through the whole body: its [output]
    is the one the loop left, with the final usage. *)
Lemma done_is_completed (model : Model) (context : Context)
    (options : option WatsonxStreamOptions) (w : World)
    (cache : gmap string TokenCache) :
  In (ev_done stop)
     (events (streamWatsonx JSON_parse model context options w cache)) ->
  exists s,
    streamWatsonx JSON_parse model context options w cache = completed model s.
Proof.
  rewrite streamWatsonx_cases.
  destruct (open_stream_spec model context options w
              (initial_state model w cache)) as (Hext & _ & _).
  apply events_extends_fetch in Hext. rewrite events_initial in Hext.
  destruct (open_stream model context options w (initial_state model w cache))
    as [[body|e] s1]; simpl in Hext.
  - destruct (events_read_loop (body_chunks body) (body_failure body) s1 Hext)
      as (es & Hes & Hbody).
    destruct (body_failure body) as [e|]; [|eauto].
    rewrite events_caught, events_log_release, Hes. intros Hin.
    apply in_app_or in Hin as [[Hin|Hin]|[Hin|[]]]; try discriminate.
    now apply body_events_no_done in Hin.
  - rewrite events_caught, Hext. intros [Hin|[]]. discriminate.
Qed.

(** C9: on normal completion (the run emits [done]) the usage of the
    message satisfies [totalTokens = input + output],
    [cost.input = input / 1000000 * price.input],
    [cost.output = output / 1000000 * price.output] and
    [cost.total = cost.input + cost.output], in binary64 arithmetic, the
    prices being zero when the model declares none; and with an input of
    1000000 tokens, an output of 500000 tokens and the prices 0.05 and 0.08
    these are 0.05, 0.04 and 0.09. *)
Theorem done_usage_and_cost (model : Model) (context : Context)
    (options : option WatsonxStreamOptions) (w : World)
    (cache : gmap string TokenCache) :
  In (ev_done stop)
     (events (streamWatsonx JSON_parse model context options w cache)) ->
  let u :=
    out_usage (output (streamWatsonx JSON_parse model context options w cache)) in
  let price := default (mkModelCost 0 0 0 0)%float (model_cost model) in
  (usage_totalTokens u = (usage_input u + usage_output u)%float /\
   cost_input (usage_cost u)
   = (usage_input u / 1000000 * price_input price)%float /\
   cost_output (usage_cost u)
   = (usage_output u / 1000000 * price_output price)%float /\
   cost_total (usage_cost u)
   = (cost_input (usage_cost u) + cost_output (usage_cost u))%float)
  /\
  (usage_input u = 1000000%float -> usage_output u = 500000%float ->
   price_input price = 0.05%float -> price_output price = 0.08%float ->
   cost_input (usage_cost u) = 0.05%float /\
   cost_output (usage_cost u) = 0.04%float /\
   cost_total (usage_cost u) = 0.09%float).
Proof.
  intros Hdone u price.
  destruct (done_is_completed model context options w cache Hdone) as [s Hs].
  assert (Hu : u = final_usage model (out_usage (output s))).
  { unfold u. rewrite Hs, output_completed. reflexivity. }
  assert (Heqs :
    usage_totalTokens u = (usage_input u + usage_output u)%float /\
    cost_input (usage_cost u)
    = (usage_input u / 1000000 * price_input price)%float /\
    cost_output (usage_cost u)
    = (usage_output u / 1000000 * price_output price)%float /\
    cost_total (usage_cost u)
    = (cost_input (usage_cost u) + cost_output (usage_cost u))%float).
  { rewrite Hu. unfold price. repeat split; reflexivity. }
  split; [exact Heqs|].
  destruct Heqs as (_ & Hin & Hout & Htotal).
  intros Hi Ho Hpi Hpo.
  rewrite Htotal, Hin, Hout, Hi, Ho, Hpi, Hpo.
  repeat split; vm_compute; reflexivity.
Qed.


(* ===================================================================== *)
(** ** The stream: the [start] event *)
(* ===================================================================== *)


Lemma body_actions_after_start (t : list Action) :
  forallb body_action t = true -> forallb after_start t = true.
Proof.
  induction t as [|a t IH]; [reflexivity|].
  simpl. destruct a as [r|e|]; simpl; try discriminate.
  destruct e; simpl; try discriminate; exact IH.
Qed.

Lemma trace_caught (e : thrown) (s : State) :
  trace (caught e s) = (trace s ++ [Emit (ev_error error)])%list.
Proof. reflexivity. Qed.

Lemma trace_completed (model : Model) (s : State) :
  exists tail,
    trace (completed model s) = (trace s ++ ReleaseLock :: tail)%list /\
    forallb after_start tail = true.
Proof.
  unfold completed. destruct (startedText s); simpl.
  - exists [Emit (ev_text_end contentIndex (fullText s)); Emit (ev_done stop)].
    split; [now rewrite <- !app_assoc|reflexivity].
  - exists [Emit (ev_done stop)].
    split; [now rewrite <- !app_assoc|reflexivity].
Qed.



Lemma in_trace_events (e : AssistantMessageEvent) (t : list Action) :
  In e (trace_events t) <-> In (Emit e) t.
Proof.
  induction t as [|a t IH]; [reflexivity|].
  destruct a as [r|e'|]; simpl.
  - rewrite IH. split; [auto|intros [H|H]; [discriminate|exact H]].
  - rewrite <- IH. split; intros [H|H]; auto; left; congruence.
  - rewrite IH. split; [auto|intros [H|H]; [discriminate|exact H]].
Qed.

Lemma fetches_no_emit (e : AssistantMessageEvent) (t : list Action) :
  forallb is_fetch t = true -> ~ In (Emit e) t.
Proof.
  intros Hf Hin. rewrite forallb_forall in Hf.
  specialize (Hf _ Hin). discriminate.
Qed.




(* ===================================================================== *)
(** ** The stream: deltas add up to the cumulative text *)
(* ===================================================================== *)

Lemma append_assoc (a b c : string) :
  ((a +:+ b) +:+ c)%string = (a +:+ (b +:+ c))%string.
Proof.
  induction a as [|x a IH]; [reflexivity|].
  rewrite !append_cons. now rewrite IH.
Qed.

Lemma concatenation_app (l1 l2 : list string) :
  concatenation (l1 ++ l2)
  = (concatenation l1 +:+ concatenation l2)%string.
Proof.
  induction l1 as [|x l1 IH]; [reflexivity|].
  simpl. rewrite IH. now rewrite append_assoc.
Qed.

Lemma deltas_app (es1 es2 : list AssistantMessageEvent) :
  deltas (es1 ++ es2) = (deltas es1 ++ deltas es2)%list.
Proof. apply omap_app. Qed.

Lemma text_ends_app (es1 es2 : list AssistantMessageEvent) :
  text_ends (es1 ++ es2) = (text_ends es1 ++ text_ends es2)%list.
Proof. apply omap_app. Qed.

(** A frame whose text brings something new: the text block is there to
    be written, so nothing throws, one delta is emitted and [fullText]
    becomes the text of the frame. *)
Lemma on_generated_text_emits (r : option GenerationResult) (g : string)
    (s : State) :
  r ≫= generated_text = Some g ->
  truthy g = true ->
  truthy (slice_from g (String.length (fullText s))) = true ->
  (startedText s = true -> out_content (output s) <> []) ->
  exists s',
    on_generated_text r s = (Normal tt, s') /\
    fullText s' = g /\ startedText s' = true /\
    out_content (output s') <> [] /\ buffer s' = buffer s /\
    deltas (events s')
    = (deltas (events s) ++ [slice_from g (String.length (fullText s))])%list /\
    text_ends (events s') = text_ends (events s).
Proof.
  intros Hr Hg Hd Hblock. unfold on_generated_text. rewrite Hr, Hg.
  run. rewrite Hd. destruct (startedText s) eqn:Hstarted; simpl.
  - destruct (out_content (output s)) as [|b blocks] eqn:Hcontent;
      [now specialize (Hblock eq_refl)|].
    simpl. eexists. split; [reflexivity|]. simpl.
    rewrite Hcontent. simpl.
    repeat split; try discriminate; try assumption;
      unfold events; simpl;
      rewrite !trace_events_app, ?deltas_app, ?text_ends_app; simpl;
      rewrite ?app_nil_r; reflexivity.
  - destruct (out_content (output s)) as [|b blocks] eqn:Hcontent; simpl;
      (eexists; split; [reflexivity|]); simpl; rewrite Hcontent; simpl;
      (repeat split; try discriminate);
      unfold events; simpl;
      rewrite !trace_events_app, ?deltas_app, ?text_ends_app; simpl;
      rewrite ?app_nil_r; reflexivity.
Qed.

Lemma on_generated_text_skips (r : option GenerationResult) (s : State) :
  (forall g, r ≫= generated_text = Some g ->
     truthy g = false \/
     truthy (slice_from g (String.length (fullText s))) = false) ->
  on_generated_text r s = (Normal tt, s).
Proof.
  intros Hskip. unfold on_generated_text.
  destruct (r ≫= generated_text) as [g|]; [|reflexivity].
  destruct (Hskip g eq_refl) as [Hg|Hd].
  - now rewrite Hg.
  - destruct (truthy g); [|reflexivity]. run. now rewrite Hd.
Qed.


Lemma text_invariant_same (s s' : State) :
  trace s' = trace s -> fullText s' = fullText s ->
  startedText s' = startedText s ->
  out_content (output s') = out_content (output s) ->
  text_invariant s -> text_invariant s'.
Proof.
  unfold text_invariant, events. intros -> -> -> ->. trivial.
Qed.

Lemma on_generated_text_invariant (r : option GenerationResult) (s : State) :
  text_invariant s ->
  (forall g, r ≫= generated_text = Some g ->
     String.prefix (fullText s) g = true) ->
  exists s',
    on_generated_text r s = (Normal tt, s') /\
    text_invariant s' /\ buffer s' = buffer s /\
    fullText s' = default (fullText s) (r ≫= generated_text).
Proof.
  intros Hinv Hprefix.
  destruct (r ≫= generated_text) as [g|] eqn:Hr.
  - specialize (Hprefix g eq_refl).
    pose proof (slice_from_prefix _ _ Hprefix) as Hsplit.
    destruct (truthy g) eqn:Hg;
      [destruct (truthy (slice_from g (String.length (fullText s)))) eqn:Hd|].
    + destruct Hinv as (Hsum & Hblock & Hstarted & Hends).
      destruct (on_generated_text_emits r g s Hr Hg Hd Hblock)
        as (s' & Hrun & Hfull & Hst & Hcontent & Hbuf & Hdeltas & Hte).
      exists s'. split; [exact Hrun|]. split; [|split; [exact Hbuf|exact Hfull]].
      unfold text_invariant. rewrite Hdeltas, Hte, Hfull, Hst.
      split; [|split; [auto|split; [|exact Hends]]].
      * rewrite concatenation_app, Hsum. simpl.
        now rewrite append_empty_r.
      * split; [intros _|reflexivity].
        destruct (deltas (events s)); discriminate.
    + exists s. split; [|split; [exact Hinv|split; [reflexivity|]]].
      * apply on_generated_text_skips. intros g' Hg'.
        rewrite Hr in Hg'. injection Hg' as <-. now right.
      * simpl. apply truthy_false in Hd. rewrite Hd in Hsplit.
        now rewrite append_empty_r in Hsplit.
    + exists s. split; [|split; [exact Hinv|split; [reflexivity|]]].
      * apply on_generated_text_skips. intros g' Hg'.
        rewrite Hr in Hg'. injection Hg' as <-. now left.
      * simpl. apply truthy_false in Hg. subst g.
        now apply prefix_empty in Hprefix.
  - exists s. split; [|split; [exact Hinv|split; reflexivity]].
    apply on_generated_text_skips. intros g Hg. now rewrite Hr in Hg.
Qed.

Lemma process_payload_invariant (parsed : Payload) (s : State) :
  text_invariant s ->
  (forall g, frame_text parsed = Some g ->
     String.prefix (fullText s) g = true) ->
  text_invariant (snd (process_payload parsed s)) /\
  buffer (snd (process_payload parsed s)) = buffer s /\
  fullText (snd (process_payload parsed s))
  = default (fullText s) (frame_text parsed).
Proof.
  intros Hinv Hprefix. unfold frame_text in *.
  destruct (on_generated_text_invariant (first_result parsed) s Hinv Hprefix)
    as (s1 & Hrun & Hinv1 & Hbuf1 & Hfull1).
  rewrite process_payload_step, Hrun.
  pose proof (on_input_token_count_normal (first_result parsed) s1)
    as (Hc2 & Ht2 & Hf2 & Hs2 & _ & Hb2 & Hk2).
  destruct (on_input_token_count (first_result parsed) s1) as [c2 s2].
  simpl in *. subst c2.
  pose proof (on_generated_token_count_normal (first_result parsed) s2)
    as (_ & Ht3 & Hf3 & Hs3 & _ & Hb3 & Hk3).
  split; [|split; congruence].
  eapply text_invariant_same; [| | | |exact Hinv1]; congruence.
Qed.

Lemma last_cons_any (a b x : string) (l : list string) :
  default a (last (x :: l)) = default b (last (x :: l)).
Proof.
  revert x. induction l as [|y l IH]; intros x; [reflexivity|].
  exact (IH y).
Qed.

Lemma last_cons_default (prev x : string) (l : list string) :
  default prev (last (x :: l)) = default x (last l).
Proof.
  destruct l as [|y l]; [reflexivity|].
  exact (last_cons_any prev x y l).
Qed.

Lemma cumulative_from_app (prev : string) (l1 l2 : list string) :
  cumulative_from prev (l1 ++ l2) = true ->
  cumulative_from (default prev (last l1)) l2 = true.
Proof.
  revert prev. induction l1 as [|x l1 IH]; intros prev H; [exact H|].
  simpl in H. apply andb_prop in H as [_ H].
  rewrite last_cons_default. exact (IH x H).
Qed.

Lemma for_of_lines_invariant (lines : list string) (rest : list string)
    (s : State) :
  text_invariant s ->
  cumulative_from (fullText s) (line_texts JSON_parse lines ++ rest) = true ->
  text_invariant (snd (for_of lines (process_line JSON_parse) s)) /\
  buffer (snd (for_of lines (process_line JSON_parse) s)) = buffer s /\
  fullText (snd (for_of lines (process_line JSON_parse) s))
  = default (fullText s) (last (line_texts JSON_parse lines)).
Proof.
  revert s. induction lines as [|line lines IH]; intros s Hinv Hcum.
  - simpl. auto.
  - simpl for_of. unfold bind. rewrite process_line_cases.
    unfold line_texts in *. simpl omap in *.
    destruct (frame_of_line JSON_parse line) as [parsed|] eqn:Hframe;
      simpl in *.
    + assert (Hprefix : forall g, frame_text parsed = Some g ->
                String.prefix (fullText s) g = true).
      { intros g Hg. rewrite Hg in Hcum. simpl in Hcum.
        now apply andb_prop in Hcum as [Hp _]. }
      destruct (process_payload_invariant parsed s Hinv Hprefix)
        as (Hinv' & Hbuf' & Hfull').
      assert (Hcum' :
        cumulative_from (fullText (snd (process_payload parsed s)))
          (omap (fun line => frame_of_line JSON_parse line ≫= frame_text) lines
           ++ rest) = true).
      { rewrite Hfull'. destruct (frame_text parsed) as [g|]; simpl in *.
        - now apply andb_prop in Hcum as [_ Hc].
        - exact Hcum. }
      destruct (IH _ Hinv' Hcum') as (Hi & Hb & Hf).
      split; [exact Hi|]. split; [congruence|].
      rewrite Hf, Hfull'.
      destruct (frame_text parsed) as [g|]; simpl; [|reflexivity].
      symmetry. apply last_cons_default.
    + apply IH; assumption.
Qed.


Lemma line_texts_app (l1 l2 : list string) :
  line_texts JSON_parse (l1 ++ l2)
  = (line_texts JSON_parse l1 ++ line_texts JSON_parse l2)%list.
Proof. apply omap_app. Qed.

Lemma default_last_app (d : string) (l1 l2 : list string) :
  default (default d (last l1)) (last l2) = default d (last (l1 ++ l2)).
Proof.
  rewrite last_app. destruct (last l2); reflexivity.
Qed.

Lemma read_loop_invariant (chunks : list string) (failure : option thrown)
    (s : State) :
  text_invariant s ->
  cumulative_from (fullText s)
    (line_texts JSON_parse (body_lines (buffer s) chunks)) = true ->
  text_invariant (snd (read_loop JSON_parse chunks failure s)) /\
  fullText (snd (read_loop JSON_parse chunks failure s))
  = default (fullText s)
      (last (line_texts JSON_parse (body_lines (buffer s) chunks))).
Proof.
  revert s. induction chunks as [|value rest IH]; intros s Hinv Hcum.
  - simpl. destruct failure; simpl; auto.
  - rewrite read_loop_cons.
    simpl body_lines in *. unfold pop in *.
    rewrite line_texts_app in *.
    set (lines := removelast (split_nl (buffer s +:+ value))) in *.
    set (left_over := default ""%string (last (split_nl (buffer s +:+ value))))
      in *.
    set (s0 := set_buffer left_over (set_buffer (buffer s +:+ value) s)).
    assert (Hinv0 : text_invariant s0) by exact Hinv.
    destruct (for_of_lines_invariant lines
                (line_texts JSON_parse (body_lines left_over rest)) s0
                Hinv0 Hcum) as (Hinv1 & Hbuf1 & Hfull1).
    apply cumulative_from_app in Hcum.
    change (fullText s) with (fullText s0) in Hcum.
    rewrite <- Hfull1 in Hcum.
    change left_over with (buffer s0) in Hcum. rewrite <- Hbuf1 in Hcum.
    destruct (IH _ Hinv1 Hcum) as (Hinv2 & Hfull2).
    split; [exact Hinv2|].
    rewrite Hfull2, Hfull1, Hbuf1. apply default_last_app.
Qed.

Lemma text_invariant_loop_start (s : State) :
  events s = [] -> text_invariant (loop_start s).
Proof.
  intros Hs. unfold text_invariant, loop_start, events. simpl.
  rewrite trace_events_app. fold (events s). rewrite Hs. simpl.
  split; [reflexivity|]. split; [discriminate|].
  split; [|reflexivity]. split; [discriminate|congruence].
Qed.

Lemma deltas_completed (model : Model) (s : State) :
  deltas (events (completed model s)) = deltas (events s).
Proof.
  rewrite events_completed, !deltas_app.
  destruct (startedText s); simpl; now rewrite app_nil_r.
Qed.

Lemma text_ends_completed (model : Model) (s : State) :
  text_ends (events (completed model s))
  = (text_ends (events s) ++ (if startedText s then [fullText s] else []))%list.
Proof.
  rewrite events_completed, !text_ends_app.
  destruct (startedText s); simpl; now rewrite ?app_nil_r.
Qed.

Lemma body_events_no_text_end (es : list AssistantMessageEvent) :
  forallb body_event es = true -> text_ends es = [].
Proof.
  induction es as [|e es IH]; [reflexivity|].
  simpl. destruct e; simpl; try discriminate; exact IH.
Qed.

(** C1: when the cumulative texts of the frames of the response body
    each extend the one before, every [text_end] event carries the
    concatenation, in order, of the deltas of all [text_delta] events, which
    is the last cumulative text received; and a run that completes after
    emitting some delta emits exactly one [text_end], with that content. *)
Theorem deltas_add_up_to_final_text (model : Model) (context : Context)
    (options : option WatsonxStreamOptions) (w : World)
    (cache : gmap string TokenCache) :
  cumulative (world_texts JSON_parse w) = true ->
  (forall content,
     In content
        (text_ends
           (events (streamWatsonx JSON_parse model context options w cache))) ->
     concatenation
       (deltas (events (streamWatsonx JSON_parse model context options w cache)))
     = content /\
     content = final_text (world_texts JSON_parse w))
  /\
  (In (ev_done stop)
      (events (streamWatsonx JSON_parse model context options w cache)) ->
   deltas (events (streamWatsonx JSON_parse model context options w cache))
   <> [] ->
   text_ends (events (streamWatsonx JSON_parse model context options w cache))
   = [concatenation
        (deltas
           (events (streamWatsonx JSON_parse model context options w cache)))]).
Proof.
  intros Hcum. rewrite streamWatsonx_cases.
  destruct (open_stream_spec model context options w
              (initial_state model w cache)) as (Hext & _ & Hbody).
  apply events_extends_fetch in Hext. rewrite events_initial in Hext.
  destruct (open_stream model context options w (initial_state model w cache))
    as [[body|e] s1]; simpl in Hext, Hbody.
  - destruct (Hbody body eq_refl) as ((response & Hgen & _ & Hgb) & _).
    unfold world_texts in *. rewrite Hgen, Hgb in *. unfold body_texts in *.
    pose proof (text_invariant_loop_start s1 Hext) as Hinv.
    destruct (read_loop_invariant (body_chunks body) (body_failure body)
                (loop_start s1) Hinv Hcum) as (Hinv2 & Hfull2).
    destruct (events_read_loop (body_chunks body) (body_failure body) s1 Hext)
      as (es & Hes & Hbodyes).
    destruct Hinv2 as (Hsum & _ & Hstarted & Hends).
    destruct (body_failure body) as [e|].
    + rewrite events_caught, events_log_release.
      rewrite text_ends_app, Hends. simpl. split; [intros c []|].
      intros Hin. exfalso. rewrite Hes in Hin.
      apply in_app_or in Hin as [[Hin|Hin]|[Hin|[]]]; try discriminate.
      now apply body_events_no_done in Hin.
    + rewrite deltas_completed, text_ends_completed, Hends. simpl.
      split.
      * intros content Hin.
        destruct (startedText _); [|destruct Hin].
        destruct Hin as [<-|[]]. split; [exact Hsum|exact Hfull2].
      * intros _ Hdeltas. apply Hstarted in Hdeltas.
        rewrite Hdeltas, Hsum. reflexivity.
  - rewrite events_caught, Hext. simpl. split; [intros c []|].
    intros [Hin|[]]. discriminate.
Qed.


(* ===================================================================== *)
(** ** The lines of a body do not depend on how it is cut into chunks *)
(* ===================================================================== *)

Lemma split_nl_not_nil (s : string) : split_nl s <> [].
Proof.
  induction s as [|c s IH]; simpl; [discriminate|].
  destruct (Ascii.eqb c "010"); [discriminate|].
  destruct (split_nl s); discriminate.
Qed.

Lemma split_nl_cons (c : ascii) (s : string) :
  Ascii.eqb c "010" = false ->
  exists l ls, split_nl s = l :: ls /\ split_nl (String c s) = String c l :: ls.
Proof.
  intros Hc. simpl. rewrite Hc.
  destruct (split_nl s) as [|l ls] eqn:Hs; [now apply split_nl_not_nil in Hs|].
  eauto.
Qed.

Lemma split_nl_newline (c : ascii) (s : string) :
  Ascii.eqb c "010" = true ->
  split_nl (String c s) = ""%string :: split_nl s.
Proof. intros Hc. simpl. now rewrite Hc. Qed.

Lemma last_cons_cons {A : Type} (x y : A) (l : list A) :
  last (x :: y :: l) = last (y :: l).
Proof. reflexivity. Qed.

(** Splitting a text that continues: the complete lines of the first
    part, then the split of its last segment followed by the rest. *)
Lemma split_nl_app (x y : string) :
  split_nl (x +:+ y)
  = (removelast (split_nl x)
     ++ split_nl (default ""%string (last (split_nl x)) +:+ y))%list.
Proof.
  induction x as [|c x IH]; [reflexivity|].
  rewrite append_cons.
  destruct (Ascii.eqb c "010") eqn:Hc.
  - rewrite !(split_nl_newline c _ Hc), IH.
    destruct (split_nl x) as [|l ls] eqn:Hs;
      [now apply split_nl_not_nil in Hs|].
    reflexivity.
  - destruct (split_nl_cons c x Hc) as (l & ls & Hs & Hcs).
    destruct (split_nl_cons c (x +:+ y) Hc) as (l' & ls' & Hs' & Hcs').
    rewrite Hcs', Hcs. rewrite IH, Hs in Hs'.
    destruct ls as [|l2 ls].
    + simpl in Hs'. simpl. now rewrite Hc, Hs'.
    + rewrite last_cons_cons.
      change (removelast (String c l :: l2 :: ls))
        with (String c l :: removelast (l2 :: ls)).
      change (removelast (l :: l2 :: ls))
        with (l :: removelast (l2 :: ls)) in Hs'.
      rewrite last_cons_cons in Hs'.
      simpl in Hs'. injection Hs' as <- <-. reflexivity.
Qed.

Lemma split_nl_no_newline (s : string) :
  no_newline s = true -> split_nl s = [s].
Proof.
  induction s as [|c s IH]; [reflexivity|].
  simpl. intros H. apply andb_prop in H as [Hc Hs].
  apply negb_true_iff in Hc. rewrite Hc, (IH Hs). reflexivity.
Qed.

Lemma split_nl_last_no_newline (s : string) :
  no_newline (default ""%string (last (split_nl s))) = true.
Proof.
  induction s as [|c s IH]; [reflexivity|].
  destruct (Ascii.eqb c "010") eqn:Hc.
  - rewrite (split_nl_newline c s Hc).
    destruct (split_nl s) as [|l ls] eqn:Hs;
      [now apply split_nl_not_nil in Hs|].
    rewrite last_cons_cons. exact IH.
  - destruct (split_nl_cons c s Hc) as (l & ls & Hs & Hcs).
    rewrite Hcs. rewrite Hs in IH.
    destruct ls as [|l2 ls].
    + simpl in *. now rewrite Hc.
    + rewrite last_cons_cons in *. exact IH.
Qed.

Lemma removelast_app_not_nil {A : Type} (l1 l2 : list A) :
  l2 <> [] -> removelast (l1 ++ l2) = (l1 ++ removelast l2)%list.
Proof. intros H. now apply removelast_app. Qed.

(** The lines the read loop processes are the complete lines of the
    whole body, however it is cut into chunks: the text after the last
    newline is never processed. *)
Lemma body_lines_whole (buf : string) (chunks : list string) :
  no_newline buf = true ->
  body_lines buf chunks
  = removelast (split_nl (buf +:+ concatenation chunks)).
Proof.
  revert buf. induction chunks as [|value rest IH]; intros buf Hbuf.
  - simpl. rewrite append_empty_r, (split_nl_no_newline buf Hbuf).
    reflexivity.
  - simpl body_lines. unfold pop. simpl concatenation.
    rewrite <- (append_assoc buf value (concatenation rest)).
    rewrite (split_nl_app (buf +:+ value) (concatenation rest)).
    rewrite removelast_app_not_nil by apply split_nl_not_nil.
    f_equal. apply IH. apply split_nl_last_no_newline.
Qed.

End StreamProperties.

(* ===================================================================== *)
(** ** The properties at concrete inputs *)
(* ===================================================================== *)

Example hello_trace_events :
  events hello_run
  = [ev_start; ev_text_start 0; ev_text_delta 0 "Hel"; ev_text_delta 0 "lo";
     ev_text_delta 0 "!"; ev_text_end 0 "Hello!"; ev_done stop].
Proof. vm_compute. reflexivity. Qed.

(** The hypothesis of cumulative texts is needed: when a frame does not
    extend the one before, the delta is still cut at the length of the text
    seen so far, and the deltas no longer add up to the final text. *)
Example rewound_text_breaks_the_sum :
  cumulative (world_texts (parse_table rewind_table) rewind_world) = false /\
  deltas (events rewind_run) = ["abc"; "w"] /\
  text_ends (events rewind_run) = ["xyzw"].
Proof. repeat split; vm_compute; reflexivity. Qed.

(** The lines of the example body are the complete lines of the whole
    text, the empty line included. *)
Example hello_lines :
  body_lines "" hello_chunks = ["data: frame-1"; "data: frame-2"; ""; "data: frame-3"].
Proof. vm_compute. reflexivity. Qed.

Lemma shorter_text_emits_no_delta_witness :
  slice_from "Hel" (String.length (fullText seen_hello)) = ""%string /\
  fst (process_payload (text_frame "Hel") seen_hello) = Normal tt /\
  trace (snd (process_payload (text_frame "Hel") seen_hello))
  = trace seen_hello /\
  fullText (snd (process_payload (text_frame "Hel") seen_hello))
  = fullText seen_hello /\
  out_content (output (snd (process_payload (text_frame "Hel") seen_hello)))
  = out_content (output seen_hello).
Proof.
  apply (shorter_text_emits_no_delta (text_frame "Hel") "Hel" seen_hello).
  - reflexivity.
  - vm_compute. lia.
Defined.

Lemma zero_token_count_is_ignored_witness :
  usage_input
    (out_usage
       (output (snd (process_payload (mkPayload (Some [zero_counts])) seen_hello))))
  = 12%float /\
  usage_output
    (out_usage
       (output (snd (process_payload (mkPayload (Some [zero_counts])) seen_hello))))
  = 34%float.
Proof.
  destruct (zero_token_count_is_ignored zero_counts [] 0%float seen_hello
              eq_refl) as [Hin Hout].
  split.
  - exact (proj2 (Hin eq_refl)).
  - exact (proj2 (Hout eq_refl)).
Defined.

Lemma missing_configuration_fails_fast_witness :
  trace (streamWatsonx (parse_table hello_table) granite hello_context None
           hello_world ∅)
  = [Emit (ev_error error)].
Proof.
  apply (missing_configuration_fails_fast (parse_table hello_table) granite
           hello_context None hello_world ∅).
  left. split; reflexivity.
Defined.

Lemma deltas_add_up_to_final_text_witness :
  cumulative (world_texts (parse_table hello_table) hello_world) = true /\
  text_ends (events hello_run) = [concatenation (deltas (events hello_run))].
Proof.
  assert (H : cumulative (world_texts (parse_table hello_table) hello_world)
              = true) by (vm_compute; reflexivity).
  split; [exact H|].
  apply (deltas_add_up_to_final_text (parse_table hello_table) granite
           hello_context configured hello_world ∅ H).
  - vm_compute. repeat ((left; reflexivity) || right).
  - vm_compute. discriminate.
Defined.

Lemma done_usage_and_cost_witness :
  cost_input (usage_cost (out_usage (output hello_run))) = 0.05%float /\
  cost_output (usage_cost (out_usage (output hello_run))) = 0.04%float /\
  cost_total (usage_cost (out_usage (output hello_run))) = 0.09%float.
Proof.
  assert (Hdone : In (ev_done stop) (events hello_run)).
  { vm_compute. repeat ((left; reflexivity) || right). }
  destruct (done_usage_and_cost (parse_table hello_table) granite
              hello_context configured hello_world ∅ Hdone) as [_ Hcase].
  apply Hcase; vm_compute; reflexivity.
Defined.



(* ===================================================================== *)
(** ** More on the credential cache *)
(* ===================================================================== *)

Lemma take_length (n : nat) (s : string) :
  String.length (take n s) = Nat.min n (String.length s).
Proof.
  revert s. induction n as [|n IH]; intros [|c s]; simpl; try reflexivity.
  now rewrite IH.
Qed.

Lemma take_prefix (n : nat) (s : string) : String.prefix (take n s) s = true.
Proof.
  revert s. induction n as [|n IH]; intros [|c s]; simpl; try reflexivity.
  destruct (ascii_dec c c) as [_|Hne]; [apply IH|now elim Hne].
Qed.

Lemma take_all (n : nat) (s : string) :
  String.length s <= n -> take n s = s.
Proof.
  revert s. induction n as [|n IH]; intros [|c s] Hlen; simpl in *;
    try reflexivity; try lia.
  f_equal. apply IH. lia.
Qed.

Lemma take_all_inv (n : nat) (s : string) :
  take n s = s -> String.length s <= n.
Proof.
  intros H. rewrite <- H, take_length. lia.
Qed.

(** X1: the cache key is the credential cut at 16 code units: a prefix
    of the credential of length [min 16 length], which is the whole
    credential exactly when the credential has at most 16 code units. *)
Theorem cacheKey_is_the_prefix_of_16 (apiKey : string) :
  String.length (cacheKey apiKey) = Nat.min 16 (String.length apiKey) /\
  String.prefix (cacheKey apiKey) apiKey = true /\
  (cacheKey apiKey = apiKey <-> String.length apiKey <= 16).
Proof.
  unfold cacheKey. rewrite slice_0. split; [apply take_length|].
  split; [apply take_prefix|].
  split; [apply take_all_inv|apply take_all].
Qed.

Lemma cacheKey_is_the_prefix_of_16_witness :
  cacheKey "short-key" = "short-key"%string /\
  cacheKey first_key <> first_key.
Proof.
  split.
  - apply (cacheKey_is_the_prefix_of_16 "short-key"). vm_compute. lia.
  - intros H. apply (cacheKey_is_the_prefix_of_16 first_key) in H.
    vm_compute in H. lia.
Defined.

(** X2: when [getIamToken] throws, it has made exactly one request, to
    the identity endpoint, and has stored nothing: the cache and [output]
    are as before. What is thrown is what [fetch] rejected with, or what
    [response.json()] rejected with, or, for a status that is not ok, an
    error whose message gives the status and the body of the reply
    ("Unknown error" when the body cannot be read). *)
Theorem failed_exchange_stores_nothing (w : World) (apiKey : string)
    (signal : option AbortSignal) (s s' : State) (e : thrown) :
  getIamToken w apiKey signal s = (Throw e, s') ->
  s' = log (iam_request apiKey signal) s /\
  tokenCache s' = tokenCache s /\
  match iam_endpoint w with
  | Rejects rejected => e = rejected
  | Resolves response =>
      if iam_ok response
      then iam_json response = inl e
      else e = Error ("IBM IAM token exchange failed: " +:+
                      pretty (iam_status response) +:+ " - " +:+
                      default "Unknown error" (iam_text response))
  end.
Proof.
  intros Hrun. unfold getIamToken, iam_request in *. run.
  repeat (case_match; simplify_eq/=); auto.
Qed.

Lemma failed_exchange_stores_nothing_witness :
  getIamToken (world_of (iam_refuses 401 (Some "bad key")) (generation_streams []))
    first_key None fresh_state
  = (Throw (Error "IBM IAM token exchange failed: 401 - bad key"),
     log (iam_request first_key None) fresh_state).
Proof.
  destruct (getIamToken
              (world_of (iam_refuses 401 (Some "bad key")) (generation_streams []))
              first_key None fresh_state) as [[token|e] s'] eqn:Hrun.
  - vm_compute in Hrun. discriminate.
  - destruct (failed_exchange_stores_nothing _ _ _ _ _ _ Hrun)
      as (-> & _ & He).
    simpl in He. subst e. reflexivity.
Defined.

(** X3: a token obtained by an exchange is handed out again, with no
    request and no change of state, by every later call for the same
    credential made more than 300000 ms before the expiry that was stored;
    a later call that is not makes a new request. In particular a token
    whose lifetime is at most five minutes is never reused. *)
Theorem exchanged_token_is_reused_until_the_margin (w1 w2 : World)
    (apiKey : string) (signal1 signal2 : option AbortSignal) (s : State)
    (response : IamResponse) (data : IamTokenData) :
  (tokenCache s !! slice apiKey 0 16 = None \/
   exists c, tokenCache s !! slice apiKey 0 16 = Some c /\
     PrimFloat.ltb (now_lookup w1 + 300000)%float (expiresAt c) = false) ->
  iam_endpoint w1 = Resolves response ->
  iam_ok response = true ->
  iam_json response = inr data ->
  (PrimFloat.ltb (now_lookup w2 + 300000)%float
     (now_store w1 + expires_in data * 1000)%float = true ->
   getIamToken w2 apiKey signal2 (snd (getIamToken w1 apiKey signal1 s))
   = (Normal (access_token data), snd (getIamToken w1 apiKey signal1 s)))
  /\
  (PrimFloat.ltb (now_lookup w2 + 300000)%float
     (now_store w1 + expires_in data * 1000)%float = false ->
   trace (snd (getIamToken w2 apiKey signal2
                 (snd (getIamToken w1 apiKey signal1 s))))
   = (trace s ++ [iam_request apiKey signal1; iam_request apiKey signal2])%list).
Proof.
  intros Hmiss Hresp Hok Hjson.
  rewrite (getIamToken_exchange w1 apiKey signal1 s Hmiss), Hresp, Hok, Hjson.
  simpl.
  set (entry := mkTokenCache (access_token data)
                  (now_store w1 + expires_in data * 1000)%float).
  set (s1 := set_tokenCache (<[slice apiKey 0 16 := entry]> (tokenCache s))
               (log (iam_request apiKey signal1) s)).
  assert (Hentry : tokenCache s1 !! slice apiKey 0 16 = Some entry)
    by apply lookup_insert_eq.
  split; intros Hfresh.
  - unfold getIamToken. run. fold s1. rewrite Hentry. simpl.
    now rewrite Hfresh.
  - rewrite (getIamToken_exchange w2 apiKey signal2 s1).
    + destruct (iam_endpoint w2) as [e|r]; simpl;
        [now rewrite <- app_assoc|].
      destruct (iam_ok r); simpl; [|now rewrite <- app_assoc].
      destruct (iam_json r); simpl; now rewrite <- app_assoc.
    + right. exists entry. split; [exact Hentry|exact Hfresh].
Qed.

Lemma exchanged_token_is_reused_until_the_margin_witness :
  getIamToken
    (world_at 2000000%float (iam_grants "second") (generation_streams []))
    first_key None
    (snd (getIamToken
            (world_at 1000%float (iam_grants "first") (generation_streams []))
            first_key None fresh_state))
  = (Normal "first",
     snd (getIamToken
            (world_at 1000%float (iam_grants "first") (generation_streams []))
            first_key None fresh_state)).
Proof.
  apply (exchanged_token_is_reused_until_the_margin
           (world_at 1000%float (iam_grants "first") (generation_streams []))
           (world_at 2000000%float (iam_grants "second") (generation_streams []))
           first_key None None fresh_state
           (mkIamResponse true 200%N None
              (inr (mkIamTokenData "first" 3600%float)))
           (mkIamTokenData "first" 3600%float)).
  - left. vm_compute. reflexivity.
  - reflexivity.
  - reflexivity.
  - reflexivity.
  - vm_compute. reflexivity.
Defined.

(* ===================================================================== *)
(** ** More on the prompt builder *)
(* ===================================================================== *)

Lemma render_messages_general (msgs : list Message) (parts : list string) :
  render_messages msgs parts =
  if existsb assistant_string msgs
  then inl (Error "msg.content.filter is not a function")
  else inr (parts ++ map segment (List.filter rendered msgs))%list.
Proof.
  revert parts. induction msgs as [|msg msgs IH]; intros parts.
  - simpl. now rewrite app_nil_r.
  - simpl. unfold assistant_string at 1, rendered at 1.
    destruct (role msg) eqn:Hrole.
    + simpl. rewrite IH. destruct (existsb assistant_string msgs);
        [reflexivity|].
      rewrite <- app_assoc. simpl. do 3 f_equal.
      unfold segment. rewrite Hrole. simpl.
      destruct (content msg); [reflexivity|].
      now rewrite text_of_blocks_message_text.
    + destruct (content msg) as [text|blocks] eqn:Hcontent; simpl;
        [reflexivity|].
      rewrite IH. destruct (existsb assistant_string msgs); [reflexivity|].
      rewrite <- app_assoc. simpl. do 3 f_equal.
      unfold segment. rewrite Hrole, Hcontent. simpl role_marker.
      now rewrite text_of_blocks_message_text.
    + simpl. apply IH.
Qed.

(** X4: [buildWatsonxPrompt] throws exactly when some assistant turn has
    a plain string as content, and what it throws is the [TypeError] of the
    missing [filter]. Otherwise it returns the system segment (if the system
    prompt is not blank), one segment per user or assistant turn in the
    original order, the turns of any other role being skipped without an
    error, and the priming marker, joined by newlines. *)
Theorem prompt_throws_exactly_on_assistant_string (context : Context) :
  (existsb assistant_string (messages context) = true ->
   buildWatsonxPrompt context
   = inl (Error "msg.content.filter is not a function"))
  /\
  (existsb assistant_string (messages context) = false ->
   buildWatsonxPrompt context
   = inr (join nl (system_segment context
                   ++ map segment (List.filter rendered (messages context))
                   ++ [priming_marker])%list)).
Proof.
  unfold buildWatsonxPrompt. fold (system_segment context).
  rewrite render_messages_general.
  split; intros ->; [reflexivity|].
  now rewrite <- app_assoc.
Qed.

Lemma prompt_throws_exactly_on_assistant_string_witness :
  buildWatsonxPrompt tool_context
  = inr (join nl (system_segment tool_context
                  ++ map segment (List.filter rendered (messages tool_context))
                  ++ [priming_marker])%list)
  /\
  buildWatsonxPrompt
    (mkContext None [mkMessage assistant (ContentString "Got it.")])
  = inl (Error "msg.content.filter is not a function").
Proof.
  split.
  - apply (prompt_throws_exactly_on_assistant_string tool_context).
    reflexivity.
  - apply (prompt_throws_exactly_on_assistant_string
             (mkContext None [mkMessage assistant (ContentString "Got it.")])).
    reflexivity.
Defined.

Example tool_prompt :
  buildWatsonxPrompt tool_context
  = inr ("<|user|>" +:+ nl +:+ "2+2?" +:+ nl +:+ "<|end|>" +:+ nl +:+
         "<|assistant|>" +:+ nl +:+ "4" +:+ nl +:+ "<|end|>" +:+ nl +:+
         "<|assistant|>" +:+ nl).
Proof. vm_compute. reflexivity. Qed.

Lemma join_snoc (parts : list string) (x : string) :
  join nl (parts ++ [x])
  = match parts with
    | [] => x
    | _ :: _ => (join nl parts +:+ nl +:+ x)%string
    end.
Proof.
  induction parts as [|p parts IH]; [reflexivity|].
  destruct parts as [|q parts].
  - reflexivity.
  - change (join nl ((p :: q :: parts) ++ [x]))
      with (p +:+ nl +:+ join nl ((q :: parts) ++ [x]))%string.
    rewrite IH.
    change (join nl (p :: q :: parts))
      with (p +:+ nl +:+ join nl (q :: parts))%string.
    now rewrite !append_assoc.
Qed.

(** X5: every prompt that is returned ends with the priming marker, the
    opening of an assistant turn that is left unclosed; before it comes
    nothing, or the rendered segments followed by a newline. A conversation
    with no message and no (or a blank) system prompt gives the marker alone. *)
Theorem prompt_ends_with_the_priming_marker (context : Context)
    (prompt : string) :
  buildWatsonxPrompt context = inr prompt ->
  (exists head, prompt = (head +:+ priming_marker)%string) /\
  (messages context = [] -> system_segment context = [] ->
   prompt = priming_marker).
Proof.
  unfold buildWatsonxPrompt. fold (system_segment context). intros Hrun.
  destruct (render_messages (messages context) (system_segment context))
    as [e|parts] eqn:Hparts; [discriminate|].
  injection Hrun as <-. fold priming_marker. split.
  - rewrite join_snoc. destruct parts as [|p parts].
    + now exists ""%string.
    + exists (join nl (p :: parts) +:+ nl)%string. now rewrite append_assoc.
  - intros Hmsgs Hsys. rewrite Hmsgs, Hsys in Hparts. simpl in Hparts.
    injection Hparts as <-. reflexivity.
Qed.

Lemma prompt_ends_with_the_priming_marker_witness :
  buildWatsonxPrompt (mkContext (Some "  ") []) = inr priming_marker.
Proof.
  destruct (buildWatsonxPrompt (mkContext (Some "  ") [])) as [e|prompt]
    eqn:Hrun.
  - vm_compute in Hrun. discriminate.
  - f_equal.
    apply (prompt_ends_with_the_priming_marker (mkContext (Some "  ") [])
             prompt Hrun); reflexivity.
Defined.

(* ===================================================================== *)
(** ** The read loop as a fold over the frames of the body *)
(* ===================================================================== *)

Section FramesOfTheBody.

Variable JSON_parse : string -> thrown + Payload.

Lemma set_buffer_set_buffer (a b : string) (s : State) :
  set_buffer a (set_buffer b s) = set_buffer a s.
Proof. reflexivity. Qed.

Lemma set_buffer_same (s : State) : set_buffer (buffer s) s = s.
Proof. now destruct s. Qed.

(** A frame neither reads nor writes [buffer]. *)
Lemma process_payload_buffer (parsed : Payload) (b : string) (s : State) :
  process_payload parsed (set_buffer b s)
  = (fst (process_payload parsed s), set_buffer b (snd (process_payload parsed s))).
Proof.
  run. repeat (case_match; simplify_eq/=); reflexivity.
Qed.

Lemma after_frames_buffer (frames : list Payload) (b : string) (s : State) :
  after_frames frames (set_buffer b s) = set_buffer b (after_frames frames s).
Proof.
  revert s. induction frames as [|parsed frames IH]; intros s; [reflexivity|].
  simpl. rewrite process_payload_buffer. simpl. apply IH.
Qed.

Lemma after_frames_app (f1 f2 : list Payload) (s : State) :
  after_frames (f1 ++ f2) s = after_frames f2 (after_frames f1 s).
Proof. apply fold_left_app. Qed.

(** The lines of a chunk: only those that carry a frame matter. *)
Lemma for_of_lines_fold (lines : list string) (s : State) :
  for_of lines (process_line JSON_parse) s
  = (Normal tt, after_frames (omap (frame_of_line JSON_parse) lines) s).
Proof.
  revert s. induction lines as [|line lines IH]; intros s; [reflexivity|].
  simpl for_of. unfold bind. rewrite process_line_cases.
  simpl omap. destruct (frame_of_line JSON_parse line) as [parsed|]; simpl.
  - apply IH.
  - apply IH.
Qed.

(** The state after the read loop: the frames of the complete lines
    folded over the state, and the unfinished line left in [buffer]. *)
Lemma read_loop_fold (chunks : list string) (failure : option thrown)
    (s : State) :
  snd (read_loop JSON_parse chunks failure s)
  = set_buffer (final_buffer (buffer s) chunks)
      (after_frames
         (omap (frame_of_line JSON_parse) (body_lines (buffer s) chunks)) s).
Proof.
  revert s. induction chunks as [|value rest IH]; intros s.
  - simpl. rewrite set_buffer_same. now destruct failure.
  - rewrite read_loop_cons, for_of_lines_fold. simpl snd.
    rewrite IH. simpl body_lines. unfold pop. simpl final_buffer.
    rewrite omap_app, after_frames_app.
    rewrite !after_frames_buffer. simpl buffer.
    now rewrite ?after_frames_buffer, ?set_buffer_set_buffer.
Qed.


(** Cutting the body differently changes nothing before the body is
    read. *)
Lemma open_stream_with_chunks (model : Model) (context : Context)
    (options : option WatsonxStreamOptions) (w : World)
    (chunks : list string) (s : State) :
  open_stream model context options (with_chunks chunks w) s
  = match open_stream model context options w s with
    | (Normal body, s1) =>
        (Normal (mkBodyStream chunks (body_failure body)), s1)
    | (Throw e, s1) => (Throw e, s1)
    end.
Proof.
  unfold open_stream, required, getIamToken, with_chunks. run.
  repeat (case_match; simplify_eq/=); reflexivity.
Qed.

(** A run, with the read loop as a fold. *)
Lemma streamWatsonx_frames (model : Model) (context : Context)
    (options : option WatsonxStreamOptions) (w : World)
    (cache : gmap string TokenCache) :
  streamWatsonx JSON_parse model context options w cache =
  match open_stream model context options w (initial_state model w cache) with
  | (Throw e, s1) => caught e s1
  | (Normal body, s1) =>
      match body_failure body with
      | Some e =>
          caught e
            (log ReleaseLock
               (set_buffer (final_buffer ""%string (body_chunks body))
                  (after_frames (body_frames JSON_parse (body_chunks body))
                     (loop_start s1))))
      | None =>
          completed model
            (set_buffer (final_buffer ""%string (body_chunks body))
               (after_frames (body_frames JSON_parse (body_chunks body))
                  (loop_start s1)))
      end
  end.
Proof.
  rewrite streamWatsonx_cases.
  destruct (open_stream model context options w (initial_state model w cache))
    as [[body|e] s1]; [|reflexivity].
  rewrite read_loop_fold. reflexivity.
Qed.

Lemma completed_buffer (model : Model) (b : string) (s : State) :
  completed model (set_buffer b s) = set_buffer b (completed model s).
Proof. unfold completed. simpl. destruct (startedText s); reflexivity. Qed.

(** Two runs in worlds that differ only in the chunks of the body, when
    the bodies carry the same frames. *)
Lemma same_frames_same_run (model : Model) (context : Context)
    (options : option WatsonxStreamOptions) (w : World)
    (cache : gmap string TokenCache) (chunks : list string) :
  world_frames JSON_parse (with_chunks chunks w) = world_frames JSON_parse w ->
  set_buffer ""%string
    (streamWatsonx JSON_parse model context options (with_chunks chunks w) cache)
  = set_buffer ""%string
      (streamWatsonx JSON_parse model context options w cache).
Proof.
  intros Hframes. rewrite !streamWatsonx_frames.
  change (initial_state model (with_chunks chunks w) cache)
    with (initial_state model w cache).
  rewrite open_stream_with_chunks.
  destruct (open_stream_spec model context options w
              (initial_state model w cache)) as (_ & _ & Hbody).
  destruct (open_stream model context options w (initial_state model w cache))
    as [[body|e] s1]; [|reflexivity].
  destruct (Hbody body eq_refl) as ((response & Hgen & _ & Hgb) & _).
  unfold world_frames, with_chunks in Hframes. simpl in Hframes.
  rewrite Hgen in Hframes. simpl in Hframes. rewrite Hgb in Hframes.
  simpl in Hframes. simpl body_chunks. simpl body_failure.
  rewrite Hframes.
  destruct (body_failure body); [reflexivity|].
  now rewrite !completed_buffer.
Qed.

(** X6: a run depends on the body of the response only through the
    frames of its complete lines. Two worlds that differ only in the chunks
    of the body and deliver the same frames (lines that are not data lines,
    [data: [DONE]] lines and data lines that do not parse carry none) give
    the same trace of requests and events, the same [output] and the same
    cache: a malformed or foreign line changes nothing and stops nothing. *)
Theorem stream_depends_on_frames_only (model : Model) (context : Context)
    (options : option WatsonxStreamOptions) (w : World)
    (cache : gmap string TokenCache) (chunks : list string) :
  world_frames JSON_parse (with_chunks chunks w) = world_frames JSON_parse w ->
  trace (streamWatsonx JSON_parse model context options (with_chunks chunks w) cache)
  = trace (streamWatsonx JSON_parse model context options w cache) /\
  output (streamWatsonx JSON_parse model context options (with_chunks chunks w) cache)
  = output (streamWatsonx JSON_parse model context options w cache) /\
  tokenCache
    (streamWatsonx JSON_parse model context options (with_chunks chunks w) cache)
  = tokenCache (streamWatsonx JSON_parse model context options w cache).
Proof.
  intros Hframes.
  pose proof (same_frames_same_run model context options w cache chunks Hframes)
    as Hsame.
  split; [|split].
  - now apply (f_equal trace) in Hsame.
  - now apply (f_equal output) in Hsame.
  - now apply (f_equal tokenCache) in Hsame.
Qed.


Lemma no_newline_app (a b : string) :
  no_newline a = true -> no_newline b = true ->
  no_newline (a +:+ b) = true.
Proof.
  intros Ha Hb. induction a as [|c a IH]; [exact Hb|].
  rewrite append_cons. simpl in *. apply andb_prop in Ha as [Hc Ha].
  now rewrite Hc, IH.
Qed.

Lemma last_split_nl_app (x y : string) :
  last (split_nl (x +:+ y))
  = last (split_nl (default ""%string (last (split_nl x)) +:+ y)).
Proof.
  rewrite split_nl_app, last_app.
  destruct (last (split_nl (default ""%string (last (split_nl x)) +:+ y)))
    as [l|] eqn:Hlast; [reflexivity|].
  apply last_None in Hlast. now apply split_nl_not_nil in Hlast.
Qed.

(** What is left in [buffer] is the text after the last newline of the
    whole body. *)
Lemma final_buffer_whole (buf : string) (chunks : list string) :
  no_newline buf = true ->
  final_buffer buf chunks
  = default ""%string (last (split_nl (buf +:+ concatenation chunks))).
Proof.
  revert buf. induction chunks as [|value rest IH]; intros buf Hbuf.
  - simpl. now rewrite append_empty_r, (split_nl_no_newline buf Hbuf).
  - simpl final_buffer. simpl concatenation.
    rewrite IH by apply split_nl_last_no_newline.
    rewrite <- (append_assoc buf value (concatenation rest)).
    now rewrite (last_split_nl_app (buf +:+ value) (concatenation rest)).
Qed.

(** A last chunk without a newline adds no line. *)
Lemma body_lines_unfinished (chunks : list string) (tail : string) :
  no_newline tail = true ->
  body_lines ""%string (chunks ++ [tail]) = body_lines ""%string chunks.
Proof.
  intros Htail. rewrite !body_lines_whole by reflexivity.
  rewrite concatenation_app. simpl concatenation.
  rewrite append_empty_r.
  rewrite <- (append_assoc "" (concatenation chunks) tail).
  rewrite (split_nl_app ("" +:+ concatenation chunks) tail).
  rewrite (split_nl_no_newline
             (default ""%string (last (split_nl ("" +:+ concatenation chunks)))
              +:+ tail)).
  - apply removelast_last.
  - apply no_newline_app; [apply split_nl_last_no_newline|exact Htail].
Qed.

(** Two runs in worlds that differ only in the way the same body text is
    cut into chunks. *)
Lemma same_text_same_run (model : Model) (context : Context)
    (options : option WatsonxStreamOptions) (w : World)
    (cache : gmap string TokenCache) (chunks : list string) :
  world_body_text (with_chunks chunks w) = world_body_text w ->
  streamWatsonx JSON_parse model context options (with_chunks chunks w) cache
  = streamWatsonx JSON_parse model context options w cache.
Proof.
  intros Htext. rewrite !streamWatsonx_frames.
  change (initial_state model (with_chunks chunks w) cache)
    with (initial_state model w cache).
  rewrite open_stream_with_chunks.
  destruct (open_stream_spec model context options w
              (initial_state model w cache)) as (_ & _ & Hbody).
  destruct (open_stream model context options w (initial_state model w cache))
    as [[body|e] s1]; [|reflexivity].
  destruct (Hbody body eq_refl) as ((response & Hgen & _ & Hgb) & _).
  unfold world_body_text, with_chunks in Htext. simpl in Htext.
  rewrite Hgen in Htext. simpl in Htext. rewrite Hgb in Htext.
  simpl in Htext. simpl body_chunks. simpl body_failure.
  unfold body_frames.
  rewrite !body_lines_whole, !final_buffer_whole by reflexivity.
  now rewrite Htext.
Qed.

(** X7: the chunk boundaries of the response body do not matter. Two
    worlds that differ only in the way the same body text is cut into
    chunks give the same run: the same requests and events in the same
    order, the same [output], the same cache and the same text left in
    [buffer]. *)
Theorem chunk_boundaries_do_not_matter (model : Model) (context : Context)
    (options : option WatsonxStreamOptions) (w : World)
    (cache : gmap string TokenCache) (chunks : list string) :
  world_body_text (with_chunks chunks w) = world_body_text w ->
  streamWatsonx JSON_parse model context options (with_chunks chunks w) cache
  = streamWatsonx JSON_parse model context options w cache.
Proof. apply same_text_same_run. Qed.

(** X8: the text after the last newline of the body is never processed.
    A world that delivers one more chunk, with no newline in it, after the
    chunks of [w] gives the same requests and events, the same [output] and
    the same cache as [w]: a last data line that lacks its newline is
    dropped, frame and all. *)
Theorem unfinished_last_line_is_dropped (model : Model) (context : Context)
    (options : option WatsonxStreamOptions) (w : World)
    (cache : gmap string TokenCache) (tail : string) :
  no_newline tail = true ->
  trace (streamWatsonx JSON_parse model context options
           (with_chunks (world_chunks w ++ [tail]) w) cache)
  = trace (streamWatsonx JSON_parse model context options w cache) /\
  output (streamWatsonx JSON_parse model context options
            (with_chunks (world_chunks w ++ [tail]) w) cache)
  = output (streamWatsonx JSON_parse model context options w cache) /\
  tokenCache (streamWatsonx JSON_parse model context options
                (with_chunks (world_chunks w ++ [tail]) w) cache)
  = tokenCache (streamWatsonx JSON_parse model context options w cache).
Proof.
  intros Htail.
  assert (Hframes :
    world_frames JSON_parse (with_chunks (world_chunks w ++ [tail]) w)
    = world_frames JSON_parse w).
  { unfold world_frames, world_chunks, with_chunks. simpl.
    destruct (generation_endpoint w) as [e|response]; [reflexivity|].
    simpl. destruct (gen_body response) as [body|]; [|reflexivity].
    simpl. unfold body_frames. now rewrite body_lines_unfinished. }
  pose proof (same_frames_same_run model context options w cache _ Hframes)
    as Hsame.
  split; [|split].
  - now apply (f_equal trace) in Hsame.
  - now apply (f_equal output) in Hsame.
  - now apply (f_equal tokenCache) in Hsame.
Qed.

End FramesOfTheBody.

Lemma stream_depends_on_frames_only_witness :
  trace (streamWatsonx (parse_table hello_table) granite hello_context
           configured (with_chunks noisy_chunks hello_world) ∅)
  = trace hello_run.
Proof.
  apply (stream_depends_on_frames_only (parse_table hello_table) granite
           hello_context configured hello_world ∅ noisy_chunks).
  vm_compute. reflexivity.
Defined.

Lemma chunk_boundaries_do_not_matter_witness :
  streamWatsonx (parse_table hello_table) granite hello_context configured
    (with_chunks hello_one_chunk hello_world) ∅
  = hello_run.
Proof.
  apply (chunk_boundaries_do_not_matter (parse_table hello_table) granite
           hello_context configured hello_world ∅ hello_one_chunk).
  vm_compute. reflexivity.
Defined.

Lemma unfinished_last_line_is_dropped_witness :
  trace (streamWatsonx (parse_table hello_table) granite hello_context
           configured
           (with_chunks (world_chunks first_frame_world ++ ["data: frame-2"])
              first_frame_world) ∅)
  = trace (streamWatsonx (parse_table hello_table) granite hello_context
             configured first_frame_world ∅).
Proof.
  apply (unfinished_last_line_is_dropped (parse_table hello_table) granite
           hello_context configured first_frame_world ∅ "data: frame-2").
  reflexivity.
Defined.

Example unfinished_frame_is_lost :
  deltas
    (events
       (streamWatsonx (parse_table hello_table) granite hello_context
          configured
          (with_chunks ["data: frame-1" +:+ nl; "data: frame-2"]
             first_frame_world) ∅))
  = ["Hel"].
Proof. vm_compute. reflexivity. Qed.

(* ===================================================================== *)
(** ** The text channel *)
(* ===================================================================== *)

Section TextChannel.

Variable JSON_parse : string -> thrown + Payload.

(** Under the invariant of the text block, the text of a frame is
    handled without a throw, as [text_step] says. *)
Lemma on_generated_text_step (r : option GenerationResult) (s : State) :
  block_invariant s ->
  on_generated_text r s
  = (Normal tt, text_step (default ""%string (r ≫= generated_text)) s).
Proof.
  unfold block_invariant, on_generated_text, text_step. intros Hblock.
  destruct (r ≫= generated_text) as [text|]; simpl; [|reflexivity].
  destruct (truthy text); simpl; [|reflexivity].
  run.
  destruct (truthy (slice_from text (String.length (fullText s))));
    [|reflexivity].
  destruct (startedText s) eqn:Hstarted; simpl; rewrite Hblock; simpl.
  - unfold log, set_output, set_fullText, with_content. simpl.
    now rewrite Hblock, Hstarted.
  - unfold log, set_output, set_fullText, set_startedText, with_content.
    simpl. rewrite Hblock. simpl. now rewrite <- app_assoc.
Qed.

Lemma text_step_block_invariant (text : string) (s : State) :
  block_invariant (text_step text s) \/ text_step text s = s.
Proof.
  unfold text_step.
  destruct (truthy text && truthy (slice_from text (String.length (fullText s))));
    [left; reflexivity|now right].
Qed.

Lemma on_usage_steps (r : option GenerationResult) (s1 : State) :
  exists s3,
    on_generated_token_count r (snd (on_input_token_count r s1))
    = (Normal tt, s3) /\
    fst (on_input_token_count r s1) = Normal tt /\
    trace s3 = trace s1 /\ fullText s3 = fullText s1 /\
    startedText s3 = startedText s1 /\ buffer s3 = buffer s1 /\
    tokenCache s3 = tokenCache s1 /\
    out_content (output s3) = out_content (output s1).
Proof.
  pose proof (on_input_token_count_normal r s1)
    as (Hc2 & Ht2 & Hf2 & Hs2 & Hk2 & Hb2 & Ho2).
  destruct (on_input_token_count r s1) as [c2 s2]. simpl in *.
  pose proof (on_generated_token_count_normal r s2)
    as (Hc3 & Ht3 & Hf3 & Hs3 & Hk3 & Hb3 & Ho3).
  destruct (on_generated_token_count r s2) as [c3 s3]. simpl in *.
  subst c2 c3. exists s3. repeat split; congruence.
Qed.

Lemma process_payload_text_step (parsed : Payload) (s : State) :
  block_invariant s ->
  fst (process_payload parsed s) = Normal tt /\
  block_invariant (snd (process_payload parsed s)) /\
  trace (snd (process_payload parsed s))
  = trace (text_step (default ""%string (frame_text parsed)) s) /\
  fullText (snd (process_payload parsed s))
  = fullText (text_step (default ""%string (frame_text parsed)) s) /\
  startedText (snd (process_payload parsed s))
  = startedText (text_step (default ""%string (frame_text parsed)) s).
Proof.
  intros Hblock. unfold frame_text.
  rewrite process_payload_step,
    (on_generated_text_step (first_result parsed) s Hblock).
  set (s1 := text_step
               (default ""%string (first_result parsed ≫= generated_text)) s).
  assert (Hblock1 : block_invariant s1).
  { destruct (text_step_block_invariant
                (default ""%string (first_result parsed ≫= generated_text)) s)
      as [H|H]; [exact H|]. fold s1 in H. now rewrite H. }
  destruct (on_usage_steps (first_result parsed) s1)
    as (s3 & Hrun & Hc2 & Ht & Hf & Hs & _ & _ & Ho).
  destruct (on_input_token_count (first_result parsed) s1) as [c2 s2].
  simpl in Hc2, Hrun. subst c2. rewrite Hrun. simpl.
  repeat split; try assumption.
  unfold block_invariant in *. now rewrite Ho, Hs, Hf.
Qed.

(** X9: the invariant of the text block is kept by every frame, and
    under it a frame never throws: the text block is always there when it
    is written, so the inner [catch] only ever sees what [JSON.parse]
    throws. The frame leaves the trace, [fullText] and [startedText] as
    [text_step] gives them for its text. *)
Theorem frame_keeps_the_text_block (parsed : Payload) (s : State) :
  block_invariant s ->
  fst (process_payload parsed s) = Normal tt /\
  block_invariant (snd (process_payload parsed s)) /\
  trace (snd (process_payload parsed s))
  = trace (text_step (default ""%string (frame_text parsed)) s) /\
  fullText (snd (process_payload parsed s))
  = fullText (text_step (default ""%string (frame_text parsed)) s) /\
  startedText (snd (process_payload parsed s))
  = startedText (text_step (default ""%string (frame_text parsed)) s).
Proof. apply process_payload_text_step. Qed.

Lemma process_payload_header (parsed : Payload) (s : State) :
  same_header (output s) (output (snd (process_payload parsed s))).
Proof.
  unfold same_header. run.
  repeat (case_match; simplify_eq/=); auto 10.
Qed.

Lemma after_frames_header (frames : list Payload) (s : State) :
  same_header (output s) (output (after_frames frames s)).
Proof.
  revert s. induction frames as [|parsed frames IH]; intros s.
  - unfold same_header. simpl. auto 10.
  - simpl. specialize (IH (snd (process_payload parsed s))).
    pose proof (process_payload_header parsed s) as H.
    unfold same_header in *. intuition congruence.
Qed.

Lemma events_text_step (text : string) (s : State) :
  events (text_step text s)
  = (events s
     ++ (if truthy text && truthy (slice_from text (String.length (fullText s)))
         then (if startedText s then [] else [ev_text_start contentIndex])
              ++ [ev_text_delta contentIndex
                    (slice_from text (String.length (fullText s)))]
         else []))%list.
Proof.
  unfold text_step.
  destruct (truthy text && truthy (slice_from text (String.length (fullText s))));
    [|now rewrite app_nil_r].
  unfold events. simpl. rewrite !trace_events_app.
  now destruct (startedText s).
Qed.

Lemma text_step_channel (text : string) (s : State) :
  channel_invariant s -> channel_invariant (text_step text s).
Proof.
  intros (ds & Hev & Htruthy & Hstarted). unfold channel_invariant.
  rewrite events_text_step.
  destruct (truthy text && truthy (slice_from text (String.length (fullText s))))
    eqn:Hemit.
  - apply andb_prop in Hemit as [_ Hd].
    exists (ds ++ [slice_from text (String.length (fullText s))])%list.
    split; [|split].
    + rewrite Hev, Hstarted. destruct ds as [|d ds]; simpl; [reflexivity|].
      now rewrite map_app.
    + rewrite forallb_app, Htruthy. simpl. now rewrite Hd.
    + unfold text_step. rewrite (proj2 (andb_true_iff _ _)); simpl.
      * now destruct ds.
      * split; [|exact Hd].
        destruct (truthy text) eqn:Ht; [reflexivity|].
        apply truthy_false in Ht. subst text. now destruct (fullText s).
  - exists ds. unfold text_step. rewrite Hemit, app_nil_r. auto.
Qed.

(** The invariants of the text channel hold after any frames. *)
Lemma after_frames_channel (frames : list Payload) (s : State) :
  block_invariant s -> channel_invariant s ->
  block_invariant (after_frames frames s) /\
  channel_invariant (after_frames frames s).
Proof.
  revert s. induction frames as [|parsed frames IH]; intros s Hblock Hchannel;
    [now split|].
  simpl. destruct (process_payload_text_step parsed s Hblock)
    as (_ & Hblock' & Htrace & _ & Hstarted).
  apply IH; [exact Hblock'|].
  destruct (text_step_channel (default ""%string (frame_text parsed)) s Hchannel)
    as (ds & Hev & Htruthy & Hst).
  exists ds. unfold events in *. rewrite Htrace, Hstarted. auto.
Qed.


Lemma loop_start_channel (s : State) :
  events s = [] -> out_content (output s) = [] ->
  block_invariant (loop_start s) /\ channel_invariant (loop_start s).
Proof.
  intros Hev Hcontent. split.
  - exact Hcontent.
  - exists []. unfold loop_start, events. simpl.
    rewrite trace_events_app. fold (events s). rewrite Hev. auto.
Qed.

(** The state the read loop leaves, up to [buffer], in any run that
    reaches the body. *)
Lemma after_loop_channel (model : Model) (context : Context)
    (options : option WatsonxStreamOptions) (w : World)
    (cache : gmap string TokenCache) (body : BodyStream) (s1 : State) :
  open_stream model context options w (initial_state model w cache)
  = (Normal body, s1) ->
  exists s2,
    snd (read_loop JSON_parse (body_chunks body) (body_failure body)
           (loop_start s1))
    = set_buffer (final_buffer ""%string (body_chunks body)) s2 /\
    block_invariant s2 /\ channel_invariant s2 /\
    same_header (new_output model w) (output s2).
Proof.
  intros Hopen.
  destruct (open_stream_spec model context options w
              (initial_state model w cache)) as (Hext & Hout & _).
  rewrite Hopen in Hext, Hout. simpl in Hext, Hout.
  apply events_extends_fetch in Hext. rewrite events_initial in Hext.
  exists (after_frames (body_frames JSON_parse (body_chunks body))
            (loop_start s1)).
  split; [apply read_loop_fold|].
  assert (Hcontent : out_content (output s1) = []) by now rewrite Hout.
  destruct (loop_start_channel s1 Hext Hcontent) as [Hblock Hchannel].
  destruct (after_frames_channel
              (body_frames JSON_parse (body_chunks body)) (loop_start s1)
              Hblock Hchannel) as [Hblock2 Hchannel2].
  split; [exact Hblock2|]. split; [exact Hchannel2|].
  pose proof (after_frames_header
                (body_frames JSON_parse (body_chunks body)) (loop_start s1))
    as Hheader.
  unfold loop_start in Hheader at 1. simpl in Hheader.
  rewrite Hout in Hheader. exact Hheader.
Qed.

Lemma events_set_buffer (b : string) (s : State) :
  events (set_buffer b s) = events s.
Proof. reflexivity. Qed.

(** The three ways a run ends, with what the text channel has done. *)
Lemma run_outcome (model : Model) (context : Context)
    (options : option WatsonxStreamOptions) (w : World)
    (cache : gmap string TokenCache) :
  (exists e s1,
     streamWatsonx JSON_parse model context options w cache = caught e s1 /\
     events s1 = [] /\ output s1 = new_output model w)
  \/
  exists s2 ds,
    block_invariant s2 /\
    events s2 = ev_start :: text_events ds /\
    forallb truthy ds = true /\
    startedText s2 = match ds with [] => false | _ :: _ => true end /\
    same_header (new_output model w) (output s2) /\
    ((exists e b,
        streamWatsonx JSON_parse model context options w cache
        = caught e (log ReleaseLock (set_buffer b s2)))
     \/
     (exists b,
        streamWatsonx JSON_parse model context options w cache
        = completed model (set_buffer b s2))).
Proof.
  rewrite streamWatsonx_cases.
  destruct (open_stream_spec model context options w
              (initial_state model w cache)) as (Hext & Hout & _).
  destruct (open_stream model context options w (initial_state model w cache))
    as [[body|e] s1] eqn:Hopen; simpl in Hext, Hout.
  - right.
    destruct (after_loop_channel model context options w cache body s1 Hopen)
      as (s2 & -> & Hblock & (ds & Hev & Htruthy & Hstarted) & Hheader).
    exists s2, ds. repeat (split; [assumption|]).
    destruct (body_failure body) as [e|]; [left|right]; eauto.
  - left. exists e, s1. split; [reflexivity|]. split; [|exact Hout].
    apply events_extends_fetch in Hext. now rewrite events_initial in Hext.
Qed.

Lemma text_events_no_terminal (ds : list string)
    (e : AssistantMessageEvent) :
  In e (text_events ds) -> is_terminal e = false.
Proof.
  destruct ds as [|d ds]; [intros []|].
  simpl. intros [<-|Hin]; [reflexivity|].
  destruct Hin as [<-|Hin]; [reflexivity|].
  apply in_map_iff in Hin as (x & <- & _). reflexivity.
Qed.

(** A terminal event of a stream is in what follows the text events. *)
Lemma terminal_in_tail (ds : list string)
    (tail : list AssistantMessageEvent) (e : AssistantMessageEvent) :
  is_terminal e = true ->
  In e (ev_start :: text_events ds ++ tail) -> In e tail.
Proof.
  intros Hterminal [<-|Hin]; [discriminate|].
  apply in_app_or in Hin as [Hin|Hin]; [|exact Hin].
  apply text_events_no_terminal in Hin. congruence.
Qed.

(** X10: the events of every run follow one grammar. Either the run
    fails before the body and its only event is [error]; or it emits
    [start], then, if any delta is emitted at all, one [text_start] followed
    by the [text_delta] events, none of them with an empty delta and all
    with content index 0, and then either [error] (a read that failed) or,
    if there was a delta, one [text_end] with the text, and [done]. The
    content of the message is empty when there was no delta and is the one
    text block, holding the text of the [text_end], otherwise. *)
Theorem events_follow_the_channel_grammar (model : Model) (context : Context)
    (options : option WatsonxStreamOptions) (w : World)
    (cache : gmap string TokenCache) :
  exists ds t,
    forallb truthy ds = true /\
    out_content (output (streamWatsonx JSON_parse model context options w cache))
    = text_blocks ds t /\
    (events (streamWatsonx JSON_parse model context options w cache)
     = [ev_error error] /\ ds = []
     \/
     events (streamWatsonx JSON_parse model context options w cache)
     = (ev_start :: text_events ds ++ [ev_error error])%list
     \/
     events (streamWatsonx JSON_parse model context options w cache)
     = (ev_start :: text_events ds ++ text_end_events ds t
        ++ [ev_done stop])%list).
Proof.
  destruct (run_outcome model context options w cache)
    as [(e & s1 & -> & Hev & Hout)
       |(s2 & ds & Hblock & Hev & Htruthy & Hstarted & _ & Hend)].
  - exists [], ""%string. split; [reflexivity|].
    split; [simpl; now rewrite Hout|].
    left. rewrite events_caught, Hev. auto.
  - exists ds, (fullText s2). split; [exact Htruthy|].
    assert (Hcontent : out_content (output s2) = text_blocks ds (fullText s2)).
    { unfold block_invariant in Hblock. rewrite Hblock, Hstarted.
      now destruct ds. }
    destruct Hend as [(e & b & ->)|(b & ->)].
    + split; [exact Hcontent|]. right. left.
      now rewrite events_caught, events_log_release, events_set_buffer, Hev.
    + rewrite output_completed. split; [exact Hcontent|]. right. right.
      rewrite events_completed, events_set_buffer, Hev. simpl.
      rewrite Hstarted. now destruct ds.
Qed.

(** X11: the fields of the message of a run. [api], [provider], [model]
    and [timestamp] are those of the model and of the clock at the call,
    whatever happens. A run that ends with [done] leaves the stop reason
    [stop] and no error message; a run that ends with [error] leaves the
    stop reason [error] and an error message. *)
Theorem message_fields_of_a_run (model : Model) (context : Context)
    (options : option WatsonxStreamOptions) (w : World)
    (cache : gmap string TokenCache) :
  out_api (output (streamWatsonx JSON_parse model context options w cache))
  = model_api model /\
  out_provider (output (streamWatsonx JSON_parse model context options w cache))
  = model_provider model /\
  out_model (output (streamWatsonx JSON_parse model context options w cache))
  = model_id model /\
  out_timestamp (output (streamWatsonx JSON_parse model context options w cache))
  = now_timestamp w /\
  (In (ev_done stop)
      (events (streamWatsonx JSON_parse model context options w cache)) ->
   out_stopReason (output (streamWatsonx JSON_parse model context options w cache))
   = stop /\
   out_errorMessage
     (output (streamWatsonx JSON_parse model context options w cache)) = None)
  /\
  (In (ev_error error)
      (events (streamWatsonx JSON_parse model context options w cache)) ->
   out_stopReason (output (streamWatsonx JSON_parse model context options w cache))
   = error /\
   exists message,
     out_errorMessage
       (output (streamWatsonx JSON_parse model context options w cache))
     = Some message).
Proof.
  destruct (run_outcome model context options w cache)
    as [(e & s1 & -> & Hev & Hout)
       |(s2 & ds & _ & Hev & _ & Hstarted & Hheader & Hend)].
  - rewrite events_caught, Hev. unfold caught. simpl. rewrite Hout. simpl.
    do 4 (split; [reflexivity|]). split.
    + intros [Hin|[]]. discriminate.
    + intros _. eauto.
  - destruct Hheader as (Ha & Hp & Hm & Hs & He & Ht). simpl in *.
    destruct Hend as [(e & b & ->)|(b & ->)].
    + rewrite events_caught, events_log_release, events_set_buffer, Hev.
      unfold caught. simpl. do 4 (split; [assumption|]). split.
      * intros Hin. apply terminal_in_tail in Hin; [|reflexivity].
        destruct Hin as [Hin|[]]. discriminate.
      * intros _. eauto.
    + rewrite events_completed, events_set_buffer, Hev, output_completed.
      simpl. do 4 (split; [assumption|]). split.
      * intros _. split; assumption.
      * intros Hin. exfalso.
        apply terminal_in_tail in Hin; [|reflexivity].
        apply in_app_or in Hin as [Hin|[Hin|[]]]; [|discriminate].
        destruct (startedText s2); [|destruct Hin].
        destruct Hin as [Hin|[]]. discriminate.
Qed.

End TextChannel.

(* ===================================================================== *)
(** ** How a run fails *)
(* ===================================================================== *)

Section Failures.

Variable JSON_parse : string -> thrown + Payload.

(** The first half of a run, once the configuration is there and the
    call for the token has been made. *)
Lemma open_stream_after_token (model : Model) (context : Context)
    (options : option WatsonxStreamOptions) (w : World) (s : State)
    (apiKey projectId : string) :
  configured_with options w apiKey projectId ->
  open_stream model context options w s =
  match getIamToken w apiKey (options ≫= opt_signal) s with
  | (Throw e, s1) => (Throw e, s1)
  | (Normal token, s1) =>
      match buildWatsonxPrompt context with
      | inl e => (Throw e, s1)
      | inr prompt =>
          let s2 :=
            log (Fetched (generation_request model options projectId token prompt))
              s1 in
          match generation_endpoint w with
          | Rejects e => (Throw e, s2)
          | Resolves response =>
              if gen_ok response then
                match gen_body response with
                | None => (Throw (Error "Watsonx response body is null"), s2)
                | Some body => (Normal body, s2)
                end
              else
                (Throw (Error ("Watsonx API error: " +:+
                               pretty (gen_status response) +:+ " - " +:+
                               default "Unknown error" (gen_text response))),
                 s2)
          end
      end
  end.
Proof.
  intros (Hk & Hkt & Hp & Hpt).
  unfold open_stream, required. rewrite Hk, Hkt, Hp, Hpt.
  unfold bind at 1. unfold ret at 1. unfold bind at 1. unfold ret at 1.
  unfold bind at 1.
  destruct (getIamToken w apiKey (options ≫= opt_signal) s)
    as [[token|e] s1]; [|reflexivity].
  unfold generation_request.
  destruct (buildWatsonxPrompt context) as [e|prompt]; [reflexivity|].
  run. destruct (generation_endpoint w) as [e|response]; [reflexivity|].
  simpl. destruct (gen_ok response); simpl; [|reflexivity].
  destruct (gen_body response); reflexivity.
Qed.

(** What a throw of [getIamToken] leaves. *)
Lemma getIamToken_throws (w : World) (apiKey : string)
    (signal : option AbortSignal) (s s' : State) (e : thrown) :
  getIamToken w apiKey signal s = (Throw e, s') ->
  s' = log (iam_request apiKey signal) s.
Proof.
  intros Hrun. unfold getIamToken, iam_request in *. run.
  repeat (case_match; simplify_eq/=); auto.
Qed.

(** What a return of [getIamToken] leaves in the trace. *)
Lemma getIamToken_returns (w : World) (apiKey : string)
    (signal : option AbortSignal) (s s' : State) (token : string) :
  getIamToken w apiKey signal s = (Normal token, s') ->
  output s' = output s /\
  (trace s' = trace s \/
   trace s' = (trace s ++ [iam_request apiKey signal])%list).
Proof.
  intros Hrun. unfold getIamToken, iam_request in *. run.
  repeat (case_match; simplify_eq/=); auto.
Qed.

Lemma after_start_no_fetch (t : list Action) :
  forallb after_start t = true -> existsb is_fetch t = false.
Proof.
  induction t as [|a t IH]; [reflexivity|].
  simpl. intros H. apply andb_prop in H as [Ha Ht].
  rewrite (IH Ht). now destruct a.
Qed.

(** X12: when the configuration is present and the token exchange
    fails, the run consists of the request to the identity endpoint and the
    [error] event: the generation endpoint is never contacted, nothing is
    cached, and the message of the event is that of what the exchange
    threw. *)
Theorem failed_exchange_ends_the_run (model : Model) (context : Context)
    (options : option WatsonxStreamOptions) (w : World)
    (cache : gmap string TokenCache) (apiKey projectId : string)
    (e : thrown) (s1 : State) :
  configured_with options w apiKey projectId ->
  getIamToken w apiKey (options ≫= opt_signal) (initial_state model w cache)
  = (Throw e, s1) ->
  trace (streamWatsonx JSON_parse model context options w cache)
  = [iam_request apiKey (options ≫= opt_signal); Emit (ev_error error)] /\
  tokenCache (streamWatsonx JSON_parse model context options w cache) = cache /\
  out_stopReason (output (streamWatsonx JSON_parse model context options w cache))
  = error /\
  out_errorMessage (output (streamWatsonx JSON_parse model context options w cache))
  = Some (error_message e).
Proof.
  intros Hconfig Htoken. rewrite streamWatsonx_cases.
  rewrite (open_stream_after_token model context options w _ apiKey projectId
             Hconfig), Htoken.
  apply getIamToken_throws in Htoken. subst s1. auto.
Qed.

(** X13: when the configuration is present and the token is acquired,
    a conversation that cannot be rendered ends the run with [error] before
    the generation endpoint is contacted; the token exchange, if one was
    needed, has been made all the same. *)
Theorem unrenderable_prompt_ends_the_run (model : Model) (context : Context)
    (options : option WatsonxStreamOptions) (w : World)
    (cache : gmap string TokenCache) (apiKey projectId token : string)
    (e : thrown) (s1 : State) :
  configured_with options w apiKey projectId ->
  getIamToken w apiKey (options ≫= opt_signal) (initial_state model w cache)
  = (Normal token, s1) ->
  buildWatsonxPrompt context = inl e ->
  trace (streamWatsonx JSON_parse model context options w cache)
  = (trace s1 ++ [Emit (ev_error error)])%list /\
  (trace s1 = [] \/ trace s1 = [iam_request apiKey (options ≫= opt_signal)]) /\
  out_errorMessage (output (streamWatsonx JSON_parse model context options w cache))
  = Some (error_message e).
Proof.
  intros Hconfig Htoken Hprompt. rewrite streamWatsonx_cases.
  rewrite (open_stream_after_token model context options w _ apiKey projectId
             Hconfig), Htoken, Hprompt.
  apply getIamToken_returns in Htoken as [_ Htrace].
  split; [reflexivity|]. split; [exact Htrace|reflexivity].
Qed.

(** A run from the request to the generation endpoint on. *)
Lemma run_after_prompt (model : Model)
    (context : Context) (options : option WatsonxStreamOptions) (w : World)
    (cache : gmap string TokenCache) (apiKey projectId token prompt : string)
    (s1 : State) :
  configured_with options w apiKey projectId ->
  getIamToken w apiKey (options ≫= opt_signal) (initial_state model w cache)
  = (Normal token, s1) ->
  buildWatsonxPrompt context = inr prompt ->
  (trace s1 = [] \/ trace s1 = [iam_request apiKey (options ≫= opt_signal)]) /\
  exists rest,
    trace (streamWatsonx JSON_parse model context options w cache)
    = (trace s1
       ++ Fetched (generation_request model options projectId token prompt)
       :: rest)%list /\
    existsb is_fetch rest = false /\
    match generation_endpoint w with
    | Rejects e =>
        rest = [Emit (ev_error error)] /\
        out_errorMessage
          (output (streamWatsonx JSON_parse model context options w cache))
        = Some (error_message e)
    | Resolves response =>
        if gen_ok response then
          match gen_body response with
          | None =>
              rest = [Emit (ev_error error)] /\
              out_errorMessage
                (output (streamWatsonx JSON_parse model context options w cache))
              = Some "Watsonx response body is null"%string
          | Some body => exists rest', rest = Emit ev_start :: rest'
          end
        else
          rest = [Emit (ev_error error)] /\
          out_errorMessage
            (output (streamWatsonx JSON_parse model context options w cache))
          = Some ("Watsonx API error: " +:+ pretty (gen_status response)
                  +:+ " - " +:+ default "Unknown error" (gen_text response))%string
    end.
Proof.
  intros Hconfig Htoken Hprompt.
  pose proof (getIamToken_returns _ _ _ _ _ _ Htoken) as [_ Htrace].
  split; [exact Htrace|].
  rewrite streamWatsonx_cases.
  rewrite (open_stream_after_token model context options w _ apiKey projectId
             Hconfig), Htoken, Hprompt.
  cbv zeta.
  destruct (generation_endpoint w) as [e|response].
  { exists [Emit (ev_error error)]. simpl. rewrite <- app_assoc. auto. }
  destruct (gen_ok response).
  2:{ exists [Emit (ev_error error)]. simpl. rewrite <- app_assoc. auto. }
  destruct (gen_body response) as [body|].
  2:{ exists [Emit (ev_error error)]. simpl. rewrite <- app_assoc. auto. }
  set (s2 := log (Fetched (generation_request model options projectId token
                              prompt)) s1).
  destruct (read_loop_extends JSON_parse (body_chunks body) (body_failure body)
              (loop_start s2)) as [(t & Hloop & Hbody) _].
  assert (Hstart : trace (loop_start s2)
                   = (trace s1
                      ++ Fetched (generation_request model options projectId
                                    token prompt)
                      :: [Emit ev_start])%list).
  { unfold loop_start, s2. simpl. now rewrite <- app_assoc. }
  rewrite Hstart in Hloop.
  apply body_actions_after_start, after_start_no_fetch in Hbody.
  destruct (body_failure body) as [e|].
  - exists (Emit ev_start :: t ++ [ReleaseLock; Emit (ev_error error)])%list.
    rewrite trace_caught. simpl trace at 1. rewrite Hloop.
    split; [now rewrite <- !app_assoc|]. split; [|eauto].
    simpl. rewrite existsb_app, Hbody. reflexivity.
  - destruct (trace_completed model
                (snd (read_loop JSON_parse (body_chunks body) None
                        (loop_start s2)))) as (tail & Htail & Hafter).
    apply after_start_no_fetch in Hafter.
    exists (Emit ev_start :: t ++ ReleaseLock :: tail)%list.
    rewrite Htail, Hloop.
    split; [now rewrite <- !app_assoc|]. split; [|eauto].
    simpl. rewrite existsb_app, Hbody. simpl. exact Hafter.
Qed.

(** The [Authorization] header of the generation request: the bearer
    token, unless the headers of the caller have an [Authorization] of their
    own, which then replaces it. *)
Lemma generation_request_authorization (model : Model)
    (options : option WatsonxStreamOptions)
    (projectId token prompt : string) :
  authorization (generation_request model options projectId token prompt)
  = Some (default ("Bearer " +:+ token)%string
            (caller_headers options !! "Authorization"%string)).
Proof.
  unfold authorization, generation_request, request_headers, spread.
  rewrite lookup_union.
  destruct (caller_headers options !! "Authorization"%string) as [own|];
    [reflexivity|].
  simpl. now rewrite lookup_insert_eq.
Qed.

(** X14: when the configuration is present, the token is acquired and
    the prompt is rendered, exactly one request is made to the generation
    endpoint, right after the token exchange if there was one. Its input is
    the rendered prompt, and its headers are the bearer token, the content
    type and the accepted type with the headers of the caller spread over
    them: the [Authorization] sent is the bearer of the token just acquired
    unless the caller's headers have an [Authorization], which replaces it.
    If the endpoint cannot be reached, answers with a status that is not ok
    or sends no body, the next and last action is the [error] event, whose
    message is that of the rejection, or gives the status and the body of
    the reply ("Unknown error" when it cannot be read), or says that the
    body is null; otherwise the next action is the [start] event. *)
Theorem generation_request_and_its_failures (model : Model)
    (context : Context) (options : option WatsonxStreamOptions) (w : World)
    (cache : gmap string TokenCache) (apiKey projectId token prompt : string)
    (s1 : State) :
  configured_with options w apiKey projectId ->
  getIamToken w apiKey (options ≫= opt_signal) (initial_state model w cache)
  = (Normal token, s1) ->
  buildWatsonxPrompt context = inr prompt ->
  (trace s1 = [] \/ trace s1 = [iam_request apiKey (options ≫= opt_signal)]) /\
  authorization (generation_request model options projectId token prompt)
  = Some (default ("Bearer " +:+ token)%string
            (caller_headers options !! "Authorization"%string)) /\
  exists rest,
    trace (streamWatsonx JSON_parse model context options w cache)
    = (trace s1
       ++ Fetched (generation_request model options projectId token prompt)
       :: rest)%list /\
    existsb is_fetch rest = false /\
    match generation_endpoint w with
    | Rejects e =>
        rest = [Emit (ev_error error)] /\
        out_errorMessage
          (output (streamWatsonx JSON_parse model context options w cache))
        = Some (error_message e)
    | Resolves response =>
        if gen_ok response then
          match gen_body response with
          | None =>
              rest = [Emit (ev_error error)] /\
              out_errorMessage
                (output (streamWatsonx JSON_parse model context options w cache))
              = Some "Watsonx response body is null"%string
          | Some body => exists rest', rest = Emit ev_start :: rest'
          end
        else
          rest = [Emit (ev_error error)] /\
          out_errorMessage
            (output (streamWatsonx JSON_parse model context options w cache))
          = Some ("Watsonx API error: " +:+ pretty (gen_status response)
                  +:+ " - " +:+ default "Unknown error" (gen_text response))%string
    end.
Proof.
  intros Hconfig Htoken Hprompt.
  destruct (run_after_prompt model context options w cache apiKey projectId
              token prompt s1 Hconfig Htoken Hprompt) as [Hbefore Hrun].
  split; [exact Hbefore|].
  split; [apply generation_request_authorization|exact Hrun].
Qed.


Lemma process_payload_cache (parsed : Payload) (s : State) :
  tokenCache (snd (process_payload parsed s)) = tokenCache s.
Proof. run. repeat (case_match; simplify_eq/=); reflexivity. Qed.

Lemma after_frames_cache (frames : list Payload) (s : State) :
  tokenCache (after_frames frames s) = tokenCache s.
Proof.
  revert s. induction frames as [|parsed frames IH]; intros s; [reflexivity|].
  simpl. rewrite IH. apply process_payload_cache.
Qed.

Lemma tokenCache_completed (model : Model) (s : State) :
  tokenCache (completed model s) = tokenCache s.
Proof. unfold completed. now destruct (startedText s). Qed.

(** The cache after a run is the cache the call for the token left. *)
Lemma run_cache (model : Model) (context : Context)
    (options : option WatsonxStreamOptions) (w : World)
    (cache : gmap string TokenCache) (apiKey projectId : string) :
  configured_with options w apiKey projectId ->
  tokenCache (streamWatsonx JSON_parse model context options w cache)
  = tokenCache
      (snd (getIamToken w apiKey (options ≫= opt_signal)
              (initial_state model w cache))).
Proof.
  intros Hconfig. rewrite (streamWatsonx_frames JSON_parse).
  rewrite (open_stream_after_token model context options w _ apiKey projectId
             Hconfig).
  destruct (getIamToken w apiKey (options ≫= opt_signal)
              (initial_state model w cache)) as [[token|e] s1];
    [|reflexivity].
  destruct (buildWatsonxPrompt context) as [e|prompt]; [reflexivity|].
  cbv zeta.
  destruct (generation_endpoint w) as [e|response]; [reflexivity|].
  destruct (gen_ok response); [|reflexivity].
  destruct (gen_body response) as [body|]; [|reflexivity].
  destruct (body_failure body) as [e|].
  - unfold caught. simpl. now rewrite after_frames_cache.
  - rewrite tokenCache_completed. simpl. now rewrite after_frames_cache.
Qed.

(** X18: the cache after a run is the cache that [getIamToken] left,
    whatever happens afterwards: the run writes at most the entry under the
    key of the credential, and a token that was exchanged stays cached even
    when the prompt cannot be rendered, the generation endpoint fails or
    the body breaks. *)
Theorem run_keeps_the_exchanged_token (model : Model) (context : Context)
    (options : option WatsonxStreamOptions) (w : World)
    (cache : gmap string TokenCache) (apiKey projectId : string) :
  configured_with options w apiKey projectId ->
  tokenCache (streamWatsonx JSON_parse model context options w cache)
  = tokenCache
      (snd (getIamToken w apiKey (options ≫= opt_signal)
              (initial_state model w cache))) /\
  (tokenCache (streamWatsonx JSON_parse model context options w cache) = cache
   \/
   exists entry,
     tokenCache (streamWatsonx JSON_parse model context options w cache)
     = <[cacheKey apiKey := entry]> cache).
Proof.
  intros Hconfig.
  rewrite (run_cache model context options w cache apiKey projectId Hconfig).
  split; [reflexivity|].
  apply (getIamToken_cache w apiKey (options ≫= opt_signal)
           (initial_state model w cache)).
Qed.

(** X19: two calls in a row share one token exchange. When a first run
    has exchanged the credential for a token, a second run with the same
    credential, started on the cache the first one left and more than
    300000 ms before the stored expiry, makes no request to the identity
    endpoint: its first action is the request to the generation endpoint,
    built from the token of the first run, and it makes no other request.
    The [Authorization] of that request is the bearer of the first run's
    token unless the headers of the second caller have an [Authorization],
    which replaces it. *)
Theorem second_run_reuses_the_token (model1 model2 : Model)
    (context1 context2 : Context)
    (options1 options2 : option WatsonxStreamOptions) (w1 w2 : World)
    (cache : gmap string TokenCache) (apiKey project1 project2 : string)
    (response : IamResponse) (data : IamTokenData) (prompt2 : string) :
  configured_with options1 w1 apiKey project1 ->
  configured_with options2 w2 apiKey project2 ->
  (cache !! slice apiKey 0 16 = None \/
   exists c, cache !! slice apiKey 0 16 = Some c /\
     PrimFloat.ltb (now_lookup w1 + 300000)%float (expiresAt c) = false) ->
  iam_endpoint w1 = Resolves response ->
  iam_ok response = true ->
  iam_json response = inr data ->
  PrimFloat.ltb (now_lookup w2 + 300000)%float
    (now_store w1 + expires_in data * 1000)%float = true ->
  buildWatsonxPrompt context2 = inr prompt2 ->
  exists rest,
    trace (streamWatsonx JSON_parse model2 context2 options2 w2
             (tokenCache
                (streamWatsonx JSON_parse model1 context1 options1 w1 cache)))
    = Fetched (generation_request model2 options2 project2
                 (access_token data) prompt2) :: rest /\
    existsb is_fetch rest = false /\
    authorization (generation_request model2 options2 project2
                     (access_token data) prompt2)
    = Some (default ("Bearer " +:+ access_token data)%string
              (caller_headers options2 !! "Authorization"%string)).
Proof.
  intros Hconfig1 Hconfig2 Hmiss Hresp Hok Hjson Hfresh Hprompt.
  rewrite (run_cache model1 context1 options1 w1 cache apiKey project1 Hconfig1).
  rewrite (getIamToken_exchange w1 apiKey (options1 ≫= opt_signal)
             (initial_state model1 w1 cache) Hmiss), Hresp, Hok, Hjson.
  simpl snd. simpl tokenCache.
  set (entry := mkTokenCache (access_token data)
                  (now_store w1 + expires_in data * 1000)%float).
  set (cache1 := <[slice apiKey 0 16 := entry]> cache).
  assert (Htoken :
    getIamToken w2 apiKey (options2 ≫= opt_signal)
      (initial_state model2 w2 cache1)
    = (Normal (access_token data), initial_state model2 w2 cache1)).
  { unfold getIamToken. run. unfold cache1. rewrite lookup_insert_eq.
    simpl. now rewrite Hfresh. }
  destruct (run_after_prompt model2 context2 options2 w2 cache1 apiKey
              project2 (access_token data) prompt2
              (initial_state model2 w2 cache1) Hconfig2 Htoken Hprompt)
    as (_ & rest & Htrace & Hno & _).
  exists rest. split; [exact Htrace|]. split; [exact Hno|].
  apply generation_request_authorization.
Qed.

End Failures.

(* ===================================================================== *)
(** ** The reader and the counters *)
(* ===================================================================== *)

Section ReaderAndCounters.

Variable JSON_parse : string -> thrown + Payload.

Lemma fetches_no_release (t : list Action) :
  forallb is_fetch t = true -> existsb is_release t = false.
Proof.
  induction t as [|a t IH]; [reflexivity|].
  simpl. intros H. apply andb_prop in H as [Ha Ht].
  rewrite (IH Ht). now destruct a.
Qed.

Lemma body_actions_no_release (t : list Action) :
  forallb body_action t = true -> existsb is_release t = false.
Proof.
  induction t as [|a t IH]; [reflexivity|].
  simpl. intros H. apply andb_prop in H as [Ha Ht].
  rewrite (IH Ht). now destruct a.
Qed.

Lemma trace_completed_closing (model : Model) (s : State) :
  exists tail,
    trace (completed model s) = (trace s ++ ReleaseLock :: tail)%list /\
    forallb is_closing tail = true.
Proof.
  unfold completed. destruct (startedText s); simpl.
  - exists [Emit (ev_text_end contentIndex (fullText s)); Emit (ev_done stop)].
    split; [now rewrite <- !app_assoc|reflexivity].
  - exists [Emit (ev_done stop)].
    split; [now rewrite <- !app_assoc|reflexivity].
Qed.

(** X15: the reader of the response body is released exactly once in
    every run that emits [start], on the error path as on the normal one:
    after the last event of the read loop and before [text_end], [done] or
    [error], which are all that follows. A run that does not emit [start]
    has no reader and releases none. *)
Theorem reader_is_released_once (model : Model) (context : Context)
    (options : option WatsonxStreamOptions) (w : World)
    (cache : gmap string TokenCache) :
  (In ev_start
      (events (streamWatsonx JSON_parse model context options w cache)) ->
   exists before after,
     trace (streamWatsonx JSON_parse model context options w cache)
     = (before ++ ReleaseLock :: after)%list /\
     existsb is_release before = false /\
     forallb is_closing after = true /\ after <> [])
  /\
  (~ In ev_start
       (events (streamWatsonx JSON_parse model context options w cache)) ->
   existsb is_release
     (trace (streamWatsonx JSON_parse model context options w cache)) = false).
Proof.
  rewrite streamWatsonx_cases.
  destruct (open_stream_spec model context options w
              (initial_state model w cache)) as ((pre & Hpre & Hfetch) & _ & _).
  simpl in Hpre.
  destruct (open_stream model context options w (initial_state model w cache))
    as [[body|e] s1]; simpl in Hpre.
  - destruct (read_loop_extends JSON_parse (body_chunks body)
                (body_failure body) (loop_start s1)) as [(t & Hloop & Hbody) _].
    assert (Hbefore : existsb is_release (trace s1 ++ [Emit ev_start] ++ t)
                      = false).
    { rewrite !existsb_app, Hpre, (fetches_no_release pre Hfetch).
      simpl. now apply body_actions_no_release. }
    assert (Hstart : trace (loop_start s1) = (trace s1 ++ [Emit ev_start])%list)
      by reflexivity.
    rewrite Hstart, <- app_assoc in Hloop.
    assert (Hin : forall tail,
      In ev_start (trace_events ((trace s1 ++ [Emit ev_start] ++ t) ++ tail))).
    { intros tail. rewrite in_trace_events. apply in_or_app. left.
      apply in_or_app. right. now left. }
    destruct (body_failure body) as [e|].
    + split.
      * intros _. exists (trace s1 ++ [Emit ev_start] ++ t)%list,
          [Emit (ev_error error)].
        rewrite trace_caught. simpl trace at 1. rewrite Hloop.
        split; [now rewrite <- !app_assoc|].
        split; [exact Hbefore|]. split; [reflexivity|discriminate].
      * intros Hnot. exfalso. apply Hnot. unfold events.
        rewrite trace_caught. simpl trace at 1. rewrite Hloop.
        rewrite <- app_assoc. apply Hin.
    + destruct (trace_completed_closing model
                  (snd (read_loop JSON_parse (body_chunks body) None
                          (loop_start s1)))) as (tail & Htail & Hclosing).
      split.
      * intros _. exists (trace s1 ++ [Emit ev_start] ++ t)%list, tail.
        rewrite Htail, Hloop. split; [reflexivity|].
        split; [exact Hbefore|]. split; [exact Hclosing|].
        unfold completed in Htail. intros ->.
        destruct (startedText _); simpl in Htail;
          rewrite <- ?app_assoc in Htail; simpl in Htail;
          apply app_inv_head in Htail; discriminate.
      * intros Hnot. exfalso. apply Hnot. unfold events.
        rewrite Htail, Hloop. apply Hin.
  - split.
    + intros Hin. exfalso. unfold events in Hin.
      rewrite trace_caught, in_trace_events, Hpre in Hin.
      apply in_app_or in Hin as [Hin|[Hin|[]]]; [|discriminate].
      now apply fetches_no_emit in Hin.
    + intros _. rewrite trace_caught, Hpre, existsb_app.
      now rewrite (fetches_no_release pre Hfetch).
Qed.

(** The counters after one frame. *)
Lemma process_payload_usage (parsed : Payload) (s : State) :
  block_invariant s ->
  usage_input (out_usage (output (snd (process_payload parsed s))))
  = match first_result parsed ≫= input_token_count with
    | Some n => if truthy_number n then n
                else usage_input (out_usage (output s))
    | None => usage_input (out_usage (output s))
    end /\
  usage_output (out_usage (output (snd (process_payload parsed s))))
  = match first_result parsed ≫= generated_token_count with
    | Some n => if truthy_number n then n
                else usage_output (out_usage (output s))
    | None => usage_output (out_usage (output s))
    end.
Proof.
  intros Hblock.
  rewrite process_payload_step,
    (on_generated_text_step (first_result parsed) s Hblock).
  assert (Husage :
    out_usage (output (text_step
      (default ""%string (first_result parsed ≫= generated_text)) s))
    = out_usage (output s)).
  { unfold text_step. now destruct (_ && _). }
  revert Husage.
  generalize (text_step
    (default ""%string (first_result parsed ≫= generated_text)) s).
  intros s1 Husage. rewrite <- Husage.
  unfold on_input_token_count, on_generated_token_count. run.
  repeat (case_match; simplify_eq/=); auto.
Qed.

Lemma filter_last_step (n : number) (l : list number) (d : number) :
  default (if truthy_number n then n else d) (last (List.filter truthy_number l))
  = default d (last (List.filter truthy_number (n :: l))).
Proof.
  simpl. destruct (truthy_number n); [|reflexivity].
  symmetry. destruct (List.filter truthy_number l) as [|x xs] eqn:Hl;
    [reflexivity|].
  rewrite last_cons_cons.
  destruct (last (x :: xs)) eqn:Hlast; [reflexivity|].
  now apply last_None in Hlast.
Qed.

(** The counters after the frames of a body. *)
Lemma after_frames_usage (frames : list Payload) (s : State) :
  block_invariant s ->
  usage_input (out_usage (output (after_frames frames s)))
  = default (usage_input (out_usage (output s)))
      (last (List.filter truthy_number
               (omap (fun parsed => first_result parsed ≫= input_token_count)
                  frames))) /\
  usage_output (out_usage (output (after_frames frames s)))
  = default (usage_output (out_usage (output s)))
      (last (List.filter truthy_number
               (omap (fun parsed => first_result parsed ≫= generated_token_count)
                  frames))).
Proof.
  revert s. induction frames as [|parsed frames IH]; intros s Hblock;
    [now split|].
  simpl after_frames.
  destruct (process_payload_text_step parsed s Hblock) as (_ & Hblock' & _).
  destruct (IH _ Hblock') as [Hin Hout].
  destruct (process_payload_usage parsed s Hblock) as [Hi Ho].
  rewrite Hin, Hout, Hi, Ho. simpl omap.
  split.
  - destruct (first_result parsed ≫= input_token_count) as [n|];
      [apply filter_last_step|reflexivity].
  - destruct (first_result parsed ≫= generated_token_count) as [n|];
      [apply filter_last_step|reflexivity].
Qed.

(** X16: the counters are overwritten, not accumulated. In a run that
    emits [start], the input and output counters of the message are the
    last counts that are not zero among those the frames of the body
    report, and zero when no frame reports any, whether the run ends with
    [done] or with [error]. *)
Theorem counters_are_the_last_reported (model : Model) (context : Context)
    (options : option WatsonxStreamOptions) (w : World)
    (cache : gmap string TokenCache) :
  In ev_start
     (events (streamWatsonx JSON_parse model context options w cache)) ->
  usage_input
    (out_usage (output (streamWatsonx JSON_parse model context options w cache)))
  = last_count input_token_count (world_frames JSON_parse w) /\
  usage_output
    (out_usage (output (streamWatsonx JSON_parse model context options w cache)))
  = last_count generated_token_count (world_frames JSON_parse w).
Proof.
  rewrite streamWatsonx_frames.
  destruct (open_stream_spec model context options w
              (initial_state model w cache)) as (Hext & Hout & Hbody).
  destruct (open_stream model context options w (initial_state model w cache))
    as [[body|e] s1]; simpl in Hext, Hout, Hbody.
  - intros _.
    destruct (Hbody body eq_refl) as ((response & Hgen & _ & Hgb) & _).
    unfold last_count, world_frames. rewrite Hgen, Hgb.
    apply events_extends_fetch in Hext. rewrite events_initial in Hext.
    assert (Hcontent : out_content (output s1) = []) by now rewrite Hout.
    destruct (loop_start_channel s1 Hext Hcontent) as [Hblock _].
    destruct (after_frames_usage (body_frames JSON_parse (body_chunks body))
                (loop_start s1) Hblock) as [Hin Hou].
    change (output (loop_start s1)) with (output s1) in Hin, Hou.
    rewrite Hout in Hin, Hou. simpl in Hin, Hou.
    destruct (body_failure body) as [e|].
    + unfold caught. simpl. split; assumption.
    + rewrite output_completed. simpl. split; assumption.
  - intros Hin. exfalso. apply events_extends_fetch in Hext.
    rewrite events_initial in Hext. rewrite events_caught, Hext in Hin.
    destruct Hin as [Hin|[]]. discriminate.
Qed.

End ReaderAndCounters.

(* ===================================================================== *)
(** ** Further properties at concrete inputs *)
(* ===================================================================== *)

Lemma frame_keeps_the_text_block_witness :
  block_invariant seen_hello /\
  fst (process_payload (text_frame "Hello!") seen_hello) = Normal tt /\
  block_invariant (snd (process_payload (text_frame "Hello!") seen_hello)).
Proof.
  assert (H : block_invariant seen_hello) by reflexivity.
  split; [exact H|].
  destruct (frame_keeps_the_text_block (text_frame "Hello!") seen_hello H)
    as (Hnormal & Hblock & _).
  split; assumption.
Defined.

Lemma message_fields_of_a_run_witness :
  out_stopReason (output hello_run) = stop /\
  out_errorMessage (output hello_run) = None.
Proof.
  destruct (message_fields_of_a_run (parse_table hello_table) granite
              hello_context configured hello_world ∅)
    as (_ & _ & _ & _ & Hdone & _).
  apply Hdone. vm_compute. repeat ((left; reflexivity) || right).
Defined.

Lemma failed_exchange_ends_the_run_witness :
  trace unreachable_run
  = [iam_request first_key (configured ≫= opt_signal); Emit (ev_error error)].
Proof.
  apply (failed_exchange_ends_the_run (parse_table hello_table) granite
           hello_context configured unreachable_iam_world ∅
           first_key "project-1" (Error "fetch failed")
           (log (iam_request first_key None)
              (initial_state granite unreachable_iam_world ∅))).
  - repeat split.
  - vm_compute. reflexivity.
Defined.

Lemma unrenderable_prompt_ends_the_run_witness :
  out_errorMessage
    (output (streamWatsonx (parse_table hello_table) granite
               unrenderable_context configured hello_world ∅))
  = Some (error_message (Error "msg.content.filter is not a function")).
Proof.
  apply (unrenderable_prompt_ends_the_run (parse_table hello_table) granite
           unrenderable_context configured hello_world ∅
           first_key "project-1" "bearer-1"
           (Error "msg.content.filter is not a function")
           (snd (getIamToken hello_world first_key None
                   (initial_state granite hello_world ∅)))).
  - repeat split.
  - vm_compute. reflexivity.
  - reflexivity.
Defined.

Lemma generation_request_and_its_failures_witness :
  out_errorMessage
    (output (streamWatsonx (parse_table hello_table) granite hello_context
               configured overloaded_world ∅))
  = Some ("Watsonx API error: " +:+ pretty 503%N +:+ " - " +:+ "try later")%string.
Proof.
  assert (Hprompt : exists prompt, buildWatsonxPrompt hello_context = inr prompt)
    by (eexists; reflexivity).
  destruct Hprompt as [prompt Hprompt].
  destruct (generation_request_and_its_failures (parse_table hello_table)
              granite hello_context configured overloaded_world ∅
              first_key "project-1" "bearer-1" prompt
              (snd (getIamToken overloaded_world first_key None
                      (initial_state granite overloaded_world ∅))))
    as (_ & _ & rest & _ & _ & Hcase).
  - repeat split.
  - vm_compute. reflexivity.
  - exact Hprompt.
  - exact (proj2 Hcase).
Defined.

(** With an [Authorization] among the headers of the caller, the
    generation request (the second action of the run) carries it in place of
    the bearer token, beside the two fixed headers; and a [temperature]
    among the caller's parameters replaces the one of the options. *)
Example caller_authorization_replaces_the_bearer :
  exists url headers body signal,
    nth_error
      (trace (streamWatsonx (parse_table hello_table) granite hello_context
                own_authorization hello_world ∅)) 1
    = Some (Fetched (GenerationRequest url headers body signal)) /\
    headers !! "Authorization"%string = Some "Basic caller"%string /\
    headers !! "Accept"%string = Some "text/event-stream"%string /\
    headers !! "Content-Type"%string = Some "application/json"%string /\
    body_parameters body !! "temperature"%string = Some (param_number 0%float) /\
    body_parameters body !! "max_new_tokens"%string
    = Some (param_number 4096%float).
Proof.
  do 4 eexists. split; [vm_compute; reflexivity|].
  repeat split; vm_compute; reflexivity.
Qed.

Lemma reader_is_released_once_witness :
  exists before after,
    trace hello_run = (before ++ ReleaseLock :: after)%list /\
    existsb is_release before = false /\
    forallb is_closing after = true /\ after <> [].
Proof.
  apply (reader_is_released_once (parse_table hello_table) granite
           hello_context configured hello_world ∅).
  vm_compute. repeat ((left; reflexivity) || right).
Defined.

Lemma counters_are_the_last_reported_witness :
  usage_input (out_usage (output hello_run))
  = last_count input_token_count
      (world_frames (parse_table hello_table) hello_world) /\
  usage_output (out_usage (output hello_run))
  = last_count generated_token_count
      (world_frames (parse_table hello_table) hello_world).
Proof.
  apply (counters_are_the_last_reported (parse_table hello_table) granite
           hello_context configured hello_world ∅).
  vm_compute. repeat ((left; reflexivity) || right).
Defined.

Example hello_counters :
  last_count input_token_count
    (world_frames (parse_table hello_table) hello_world) = 1000000%float /\
  last_count generated_token_count
    (world_frames (parse_table hello_table) hello_world) = 500000%float.
Proof. split; vm_compute; reflexivity. Qed.

Lemma run_keeps_the_exchanged_token_witness :
  tokenCache hello_run
  = tokenCache
      (snd (getIamToken hello_world first_key (configured ≫= opt_signal)
              (initial_state granite hello_world ∅))).
Proof.
  apply (run_keeps_the_exchanged_token (parse_table hello_table) granite
           hello_context configured hello_world ∅ first_key "project-1").
  repeat split.
Defined.

Lemma second_run_reuses_the_token_witness :
  exists prompt rest,
    buildWatsonxPrompt hello_context = inr prompt /\
    trace (streamWatsonx (parse_table hello_table) granite hello_context
             configured later_world (tokenCache hello_run))
    = Fetched (generation_request granite configured "project-1" "bearer-1"
                 prompt) :: rest /\
    existsb is_fetch rest = false.
Proof.
  assert (Hprompt : exists prompt, buildWatsonxPrompt hello_context = inr prompt)
    by (eexists; reflexivity).
  destruct Hprompt as [prompt Hprompt]. exists prompt.
  destruct (second_run_reuses_the_token (parse_table hello_table)
              granite granite hello_context hello_context
              configured configured hello_world later_world ∅
              first_key "project-1" "project-1"
              (mkIamResponse true 200%N None
                 (inr (mkIamTokenData "bearer-1" 3600%float)))
              (mkIamTokenData "bearer-1" 3600%float) prompt)
    as (rest & Htrace & Hno & _).
  - repeat split.
  - repeat split.
  - left. vm_compute. reflexivity.
  - reflexivity.
  - reflexivity.
  - reflexivity.
  - vm_compute. reflexivity.
  - exact Hprompt.
  - exists rest. split; [exact Hprompt|]. split; [exact Htrace|exact Hno].
Defined.
